(** * go-uci: the Config / Section / Option tree of [types.go]

    A shallow embedding of the section-selector parser, the positional and
    named lookups, the merge and delete operations and the serializer of
    the UCI tree, with the properties stated about them.

    Conventions of the embedding.
    - A Go [string] is a byte string: Rocq's [string] of [ascii] bytes.
      [len] is [String.length], [s[a:b]] is [substring a (b - a) s].
    - Go's [int] is 64 bits wide.  The only place where the width can be
      observed is [strconv.Atoi], which reports a range error; every other
      [int] of the file counts elements of a slice (whose length is an
      [int]) and cannot overflow, so counters are plain [Z].
    - [*Section] and [*Option] are addresses into a heap; methods that
      mutate their receiver return the new heap.  Dereferencing an address
      that the heap does not hold is Go's nil dereference and panics.
    - A function that can panic returns a [result].
    - A method [T.m] is [T_m]: [Config.Get] is [Config_Get].  [Section]
      is a keyword of Rocq, so the structs are [Config], [SectionT] and
      [OptionT], their fields [cfgName], [secName], [optName] and so on.
      A loop is a recursive function named after its method. *)

From Stdlib Require Import ZArith String Ascii List Lia Bool.
From Stdlib Require Import DecimalString DecimalPos.
From stdpp Require Import base option list gmap strings.

Local Open Scope Z_scope.

(** ** Panics *)

Inductive result (A : Type) : Type :=
| Ok (a : A)
| Panic (msg : string).
Arguments Ok {A} a.
Arguments Panic {A} msg.

Definition rbind {A B : Type} (m : result A) (f : A -> result B) : result B :=
  match m with
  | Ok a => f a
  | Panic msg => Panic msg
  end.

Notation "'do' x <- m ; f" := (rbind m (fun x => f))
  (at level 10, x pattern, m at level 100, f at level 200,
   format "'[v' 'do'  x  <-  m ; '/' f ']'").

(** ** Errors *)

(** The two failures of [strconv.ParseInt]. *)
Inductive NumError : Type := ErrSyntax | ErrRange.

(** The package's error values; [ErrIndexNotNumeric] is the
    [fmt.Errorf("invalid syntax: index must be numeric: %w", err)] of
    [unmangleSectionName], wrapping the failure of [strconv.Atoi]. *)
Inductive error : Type :=
| ErrImplausibleSectionSelector
| ErrMustStartWithAt
| ErrMultipleAtSigns
| ErrMultipleOpenBrackets
| ErrMultipleCloseBrackets
| ErrInvalidSectionSelector
| ErrIndexNotNumeric (cause : NumError)
| ErrUnnamedIndexOutOfBounds.

(** ** strconv.Atoi

    [Atoi s] is [ParseInt(s, 10, 0)] (its fast path for short inputs
    computes the same result).  [ParseUint] works on [uint64]: [n1 < n]
    detects the wrap-around of [n + d]. *)

Definition is_digit (c : ascii) : bool :=
  (48 <=? nat_of_ascii c)%nat && (nat_of_ascii c <=? 57)%nat.

Definition digit_val (c : ascii) : Z := Z.of_nat (nat_of_ascii c) - 48.

Definition maxUint64 : Z := 2 ^ 64 - 1.

Fixpoint ParseUint_loop (s : string) (n : Z) : Z * option NumError :=
  match s with
  | EmptyString => (n, None)
  | String c rest =>
      if is_digit c then
        if maxUint64 / 10 + 1 <=? n then (maxUint64, Some ErrRange)
        else
          let n10 := n * 10 in
          let n1 := (n10 + digit_val c) mod 2 ^ 64 in
          if (n1 <? n10) || (maxUint64 <? n1) then (maxUint64, Some ErrRange)
          else ParseUint_loop rest n1
      else (0, Some ErrSyntax)
  end.

Definition ParseUint (s : string) : Z * option NumError :=
  match s with
  | EmptyString => (0, Some ErrSyntax)
  | _ => ParseUint_loop s 0
  end.

Definition ParseInt (s : string) : Z * option NumError :=
  match s with
  | EmptyString => (0, Some ErrSyntax)
  | String c rest =>
      let neg := Ascii.eqb c "-" in
      let digits := if Ascii.eqb c "+" || neg then rest else s in
      match ParseUint digits with
      | (_, Some ErrSyntax) => (0, Some ErrSyntax)
      | (un, _) =>
          let cutoff := 2 ^ 63 in
          if negb neg && (cutoff <=? un) then (cutoff - 1, Some ErrRange)
          else if neg && (cutoff <? un) then (- cutoff, Some ErrRange)
          else (if neg then - un else un, None)
      end
  end.

Definition Atoi (s : string) : Z * option NumError := ParseInt s.

(** [strconv.Itoa], also the [%d] verb of [fmt.Sprintf]. *)
Definition Itoa (n : Z) : string :=
  DecimalString.NilZero.string_of_int (Z.to_int n).

(** ** unmangleSectionName

    The loop [for i, r := range name] decodes runes, [i] being the byte
    offset of [r].  The three runes it compares with are ASCII, an ASCII
    byte never occurs inside a longer UTF-8 sequence and a malformed byte
    is decoded alone, so every '@', '[' and ']' byte is visited with its
    own offset: the loop is the byte loop below. *)

Fixpoint unmangle_scan (name : string) (i bra ket : nat) : error + nat :=
  match name with
  | EmptyString => inr bra
  | String r rest =>
      if negb (i =? 0)%nat && Ascii.eqb r "@" then inl ErrMultipleAtSigns
      else if Ascii.eqb r "[" && (0 <? bra)%nat then inl ErrMultipleOpenBrackets
      else if Ascii.eqb r "]" && negb (i =? ket)%nat then inl ErrMultipleCloseBrackets
      else if Ascii.eqb r "[" then unmangle_scan rest (S i) i ket
      else unmangle_scan rest (S i) bra ket
  end.

Definition unmangleSectionName (name : string) : string * Z * option error :=
  let l := String.length name in
  if (l <? 5)%nat then ("", 0, Some ErrImplausibleSectionSelector)
  else if negb (bool_decide (String.get 0 name = Some "@"%char))
  then ("", 0, Some ErrMustStartWithAt)
  else
    let ket := (l - 1)%nat in
    match unmangle_scan name 0 0 ket with
    | inl err => ("", 0, Some err)
    | inr bra =>
        if (bra =? 0)%nat || (ket <=? bra)%nat
        then ("", 0, Some ErrInvalidSectionSelector)
        else
          let typ := substring 1 (bra - 1) name in
          let '(index, err) := Atoi (substring (bra + 1) (ket - (bra + 1)) name) in
          (typ, index, ErrIndexNotNumeric <$> err)
    end.

(** ** The tree *)

(** Modelled from the spec: the declaration of [OptionType] and of its
    constants [TypeOption] and [TypeList] is not part of [types.go]; the
    data model gives an option's type as one of these two. *)
Inductive OptionType : Type := TypeOption | TypeList.

(** An address of the heap: a non-nil pointer. *)
Abbreviation addr := nat (only parsing).

Record OptionT : Type := mkOption {
  optName : string;
  optValues : list string;
  optType : OptionType
}.

Record SectionT : Type := mkSection {
  secName : string;
  secType : string;
  secOptions : list addr          (* []*Option *)
}.

Record Config : Type := mkConfig {
  cfgName : string;
  cfgSections : list addr;        (* []*Section *)
  tainted : bool
}.

Record Heap : Type := mkHeap {
  sections : gmap nat SectionT;
  options : gmap nat OptionT
}.

Definition getSection (h : Heap) (p : addr) : result SectionT :=
  match sections h !! p with
  | Some s => Ok s
  | None => Panic "invalid memory address or nil pointer dereference"
  end.

Definition getOption (h : Heap) (p : addr) : result OptionT :=
  match options h !! p with
  | Some o => Ok o
  | None => Panic "invalid memory address or nil pointer dereference"
  end.

Definition setSection (h : Heap) (p : addr) (s : SectionT) : Heap :=
  mkHeap (<[p := s]> (sections h)) (options h).

Definition setOption (h : Heap) (p : addr) (o : OptionT) : Heap :=
  mkHeap (sections h) (<[p := o]> (options h)).

Definition newConfig (name : string) : Config := mkConfig name [] false.

(** ** Lookup *)

Fixpoint getNamed_loop (h : Heap) (secs : list addr) (name : string)
  : result (option addr) :=
  match secs with
  | [] => Ok None
  | p :: rest =>
      do sec <- getSection h p;
      if bool_decide (secName sec = name) then Ok (Some p)
      else getNamed_loop h rest name
  end.

Definition Config_getNamed (h : Heap) (c : Config) (name : string)
  : result (option addr) :=
  getNamed_loop h (cfgSections c) name.

Fixpoint count_loop (h : Heap) (secs : list addr) (typ : string) (n : Z)
  : result Z :=
  match secs with
  | [] => Ok n
  | p :: rest =>
      do sec <- getSection h p;
      if bool_decide (secType sec = typ) then count_loop h rest typ (n + 1)
      else count_loop h rest typ n
  end.

Definition Config_count (h : Heap) (c : Config) (typ : string) : result Z :=
  count_loop h (cfgSections c) typ 0.

Fixpoint getUnnamed_loop (h : Heap) (secs : list addr) (typ : string)
  (idx n : Z) : result (option addr) :=
  match secs with
  | [] => Ok None
  | p :: rest =>
      do sec <- getSection h p;
      if bool_decide (secType sec = typ) then
        if idx =? n then Ok (Some p)
        else getUnnamed_loop h rest typ idx (n + 1)
      else getUnnamed_loop h rest typ idx n
  end.

Definition Config_getUnnamed (h : Heap) (c : Config) (name : string)
  : result (option addr * option error) :=
  let '(typ, idx, err) := unmangleSectionName name in
  match err with
  | Some e => Ok (None, Some e)
  | None =>
      do count <- Config_count h c typ;
      if (idx <? - count) || (count <=? idx)
      then Ok (None, Some ErrUnnamedIndexOutOfBounds)
      else
        let idx := if idx <? 0 then idx + count else idx in
        do sec <- getUnnamed_loop h (cfgSections c) typ idx 0;
        Ok (sec, None)
  end.

Definition Config_Get (h : Heap) (c : Config) (name : string)
  : result (option addr) :=
  if String.prefix "@" name then
    do (sec, _) <- Config_getUnnamed h c name;
    Ok sec
  else Config_getNamed h c name.

(** ** Section names *)

Definition Config_Add (c : Config) (s : addr) : Config :=
  mkConfig (cfgName c) (cfgSections c ++ [s]) (tainted c).

Fixpoint index_loop (h : Heap) (secs : list addr) (s : addr) (i : Z)
  : result Z :=
  match secs with
  | [] => Panic "not reached"
  | p :: rest =>
      if bool_decide (p = s) then Ok i
      else
        do sec <- getSection h p;
        do s' <- getSection h s;
        if bool_decide (secType sec = secType s') then index_loop h rest s (i + 1)
        else index_loop h rest s i
  end.

Definition Config_index (h : Heap) (c : Config) (s : addr) : result Z :=
  index_loop h (cfgSections c) s 0.

Definition Config_sectionName (h : Heap) (c : Config) (s : addr)
  : result string :=
  do sec <- getSection h s;
  if bool_decide (secName sec <> "") then Ok (secName sec)
  else
    do i <- Config_index h c s;
    Ok ("@" +:+ secType sec +:+ "[" +:+ Itoa i +:+ "]").

(** ** Merging *)

Definition Option_AddValue (h : Heap) (o : addr) (v : string) : result Heap :=
  do opt <- getOption h o;
  Ok (setOption h o (mkOption (optName opt) (optValues opt ++ [v]) (optType opt))).

Fixpoint MergeValues_loop (h : Heap) (o : addr) (have : gset string)
  (vs : list string) : result Heap :=
  match vs with
  | [] => Ok h
  | v :: rest =>
      if bool_decide (v ∈ have) then MergeValues_loop h o have rest
      else
        do h' <- Option_AddValue h o v;
        MergeValues_loop h' o have rest
  end.

Definition Option_MergeValues (h : Heap) (o : addr) (vs : list string)
  : result Heap :=
  do opt <- getOption h o;
  let have : gset string := list_to_set (optValues opt) in
  MergeValues_loop h o have vs.

(** The loop of [Section.Merge]: [Some h'] when an option of the same
    name was found and merged into (the method returns there), [None]
    when the loop ran to its end. *)
Fixpoint Section_Merge_loop (h : Heap) (opts : list addr) (o : addr)
  : result (option Heap) :=
  match opts with
  | [] => Ok None
  | p :: rest =>
      do opt <- getOption h p;
      do o' <- getOption h o;
      if bool_decide (optName opt = optName o') then
        do h' <- Option_MergeValues h p (optValues o');
        Ok (Some h')
      else Section_Merge_loop h rest o
  end.

Definition Section_Add (h : Heap) (s : addr) (o : addr) : result Heap :=
  do sec <- getSection h s;
  Ok (setSection h s (mkSection (secName sec) (secType sec) (secOptions sec ++ [o]))).

Definition Section_Merge (h : Heap) (s : addr) (o : addr) : result Heap :=
  do sec <- getSection h s;
  do merged <- Section_Merge_loop h (secOptions sec) o;
  match merged with
  | Some h' => Ok h'
  | None =>
      Ok (setSection h s (mkSection (secName sec) (secType sec) (secOptions sec ++ [o])))
  end.

(** The first loop of [Config.Merge]: the section found, or nil. *)
Fixpoint Merge_find (h : Heap) (c : Config) (secs : list addr) (s : addr)
  : result (option addr) :=
  match secs with
  | [] => Ok None
  | p :: rest =>
      do sname <- Config_sectionName h c s;
      do cname <- Config_sectionName h c p;
      if bool_decide (sname = cname) then Ok (Some p)
      else Merge_find h c rest s
  end.

(** The second loop of [Config.Merge]. *)
Fixpoint Merge_options (h : Heap) (sec : addr) (opts : list addr)
  : result Heap :=
  match opts with
  | [] => Ok h
  | o :: rest =>
      do h' <- Section_Merge h sec o;
      Merge_options h' sec rest
  end.

Definition Config_Merge (h : Heap) (c : Config) (s : addr)
  : result (Heap * Config * addr) :=
  do found <- Merge_find h c (cfgSections c) s;
  match found with
  | None => Ok (h, Config_Add c s, s)
  | Some sec =>
      do s' <- getSection h s;
      do h' <- Merge_options h sec (secOptions s');
      Ok (h', c, sec)
  end.

(** ** Placeholder names

    [IsPlaceholderName] compiles ["^@" + secType + `\[(\d+)\]$`] and
    matches [name] against it.  [secType] is spliced into the expression
    as it is, so the expression means "the text [secType]" only when
    [secType] holds no regexp metacharacter: [regexp_literal].  For such a
    type the expression matches exactly "@", the type, "[", one or more
    ASCII digits, "]" and the end of the text, which is what
    [IsPlaceholderName] computes below.  Section types with metacharacters
    (where Go would match another language, or panic in [MustCompile]) are
    outside the model: statements about [IsPlaceholderName] assume
    [regexp_literal]. *)

Definition regexp_meta (c : ascii) : bool :=
  bool_decide (c ∈ list_ascii_of_string "\.+*?()|[]{}^$").

Fixpoint regexp_literal (s : string) : bool :=
  match s with
  | EmptyString => true
  | String c rest =>
      (nat_of_ascii c <? 128)%nat && negb (regexp_meta c) && regexp_literal rest
  end.

Fixpoint strip_prefix (p s : string) : option string :=
  match p, s with
  | EmptyString, _ => Some s
  | String a p', String b s' => if Ascii.eqb a b then strip_prefix p' s' else None
  | String _ _, EmptyString => None
  end.

(** [\d+\]$]: [seen] tells whether a digit was read. *)
Fixpoint match_digits_ket (s : string) (seen : bool) : bool :=
  match s with
  | EmptyString => false
  | String c rest =>
      if is_digit c then match_digits_ket rest true
      else seen && Ascii.eqb c "]" && bool_decide (rest = "")
  end.

Definition IsPlaceholderName (name secType : string) : bool :=
  match name with
  | String c rest =>
      if Ascii.eqb c "@" then
        match strip_prefix secType rest with
        | Some (String b digits) => Ascii.eqb b "[" && match_digits_ket digits false
        | _ => false
        end
      else false
  | EmptyString => false
  end.

Definition Num2PlaceholderSection (sectionType : string) (num : Z) : string :=
  "@" +:+ sectionType +:+ "[" +:+ Itoa num +:+ "]".

(** ** Deletion *)

(** The loop of [Config.Del]: the value of [i] when the loop is left. *)
Fixpoint Del_loop (h : Heap) (secs : list addr) (name : string)
  (indexs : gmap string Z) (i : nat) : result nat :=
  match secs with
  | [] => Ok i
  | p :: rest =>
      do sec <- getSection h p;
      if IsPlaceholderName name (secType sec) then
        let '(_, index, _) := unmangleSectionName name in
        let indexs :=
          match indexs !! secType sec with
          | Some _ => indexs
          | None => <[secType sec := 0]> indexs
          end in
        if index =? default 0 (indexs !! secType sec) then Ok i
        else
          let indexs :=
            <[secType sec := default 0 (indexs !! secType sec) + 1]> indexs in
          if bool_decide (secName sec = name) then Ok i
          else Del_loop h rest name indexs (S i)
      else if bool_decide (secName sec = name) then Ok i
      else Del_loop h rest name indexs (S i)
  end.

Definition Config_Del (h : Heap) (c : Config) (name : string) : result Config :=
  do i <- Del_loop h (cfgSections c) name ∅ 0%nat;
  if (i <? length (cfgSections c))%nat
  then Ok (mkConfig (cfgName c)
             (take i (cfgSections c) ++ drop (S i) (cfgSections c))
             (tainted c))
  else Ok c.

Fixpoint Section_Del_loop (h : Heap) (opts : list addr) (name : string)
  (i : nat) : result nat :=
  match opts with
  | [] => Ok i
  | p :: rest =>
      do opt <- getOption h p;
      if bool_decide (optName opt = name) then Ok i
      else Section_Del_loop h rest name (S i)
  end.

Definition Section_Del (h : Heap) (s : addr) (name : string)
  : result (Heap * bool) :=
  do sec <- getSection h s;
  do i <- Section_Del_loop h (secOptions sec) name 0%nat;
  if (i =? length (secOptions sec))%nat then Ok (h, false)
  else
    Ok (setSection h s
          (mkSection (secName sec) (secType sec)
             (take i (secOptions sec) ++ drop (S i) (secOptions sec))),
        true).

(** ** Serialization

    [WriteTo] fills a buffer and hands it to the writer at the end; the
    model returns the bytes handed over. *)

Definition LF : string := String (ascii_of_nat 10) EmptyString.
Definition TAB : string := String (ascii_of_nat 9) EmptyString.

Fixpoint write_list (buf : string) (name : string) (vs : list string) : string :=
  match vs with
  | [] => buf
  | v :: rest =>
      write_list (buf +:+ TAB +:+ "list " +:+ name +:+ " '" +:+ v +:+ "'" +:+ LF)
        name rest
  end.

Fixpoint write_options (h : Heap) (buf : string) (opts : list addr)
  : result string :=
  match opts with
  | [] => Ok buf
  | p :: rest =>
      do opt <- getOption h p;
      match optType opt with
      | TypeOption =>
          match optValues opt with
          | v :: _ =>
              write_options h
                (buf +:+ TAB +:+ "option " +:+ optName opt +:+ " '" +:+ v +:+ "'" +:+ LF)
                rest
          | [] => Panic "index out of range [0] with length 0"
          end
      | TypeList =>
          write_options h (write_list buf (optName opt) (optValues opt)) rest
      end
  end.

Fixpoint write_sections (h : Heap) (buf : string) (secs : list addr)
  : result string :=
  match secs with
  | [] => Ok buf
  | p :: rest =>
      do sec <- getSection h p;
      let buf :=
        if bool_decide (secName sec = "") || IsPlaceholderName (secName sec) (secType sec)
        then buf +:+ LF +:+ "config " +:+ secType sec +:+ LF
        else buf +:+ LF +:+ "config " +:+ secType sec +:+ " '" +:+ secName sec +:+ "'" +:+ LF in
      do buf <- write_options h buf (secOptions sec);
      write_sections h buf rest
  end.

Definition Config_WriteTo (h : Heap) (c : Config) : result string :=
  do buf <- write_sections h "" (cfgSections c);
  Ok (buf +:+ LF).

(** * Vocabulary of the statements *)

(** The values of Go's [int]. *)
Definition int_range (n : Z) : Prop := - 2 ^ 63 <= n < 2 ^ 63.

(** A byte other than '@', '[' and ']'. *)
Definition plain_byte (c : ascii) : bool :=
  negb (Ascii.eqb c "@") && negb (Ascii.eqb c "[") && negb (Ascii.eqb c "]").

Fixpoint plain (s : string) : bool :=
  match s with
  | EmptyString => true
  | String c rest => plain_byte c && plain rest
  end.

(** The TYPE of the selector grammar: one or more plain bytes. *)
Definition selector_type (T : string) : bool :=
  negb (bool_decide (T = "")) && plain T.

(** The number a string of decimal digits denotes, most significant digit
    first, continuing from [n]. *)
Fixpoint uint_val (d : Decimal.uint) (n : Z) : Z :=
  match d with
  | Decimal.Nil => n
  | Decimal.D0 d => uint_val d (n * 10 + 0)
  | Decimal.D1 d => uint_val d (n * 10 + 1)
  | Decimal.D2 d => uint_val d (n * 10 + 2)
  | Decimal.D3 d => uint_val d (n * 10 + 3)
  | Decimal.D4 d => uint_val d (n * 10 + 4)
  | Decimal.D5 d => uint_val d (n * 10 + 5)
  | Decimal.D6 d => uint_val d (n * 10 + 6)
  | Decimal.D7 d => uint_val d (n * 10 + 7)
  | Decimal.D8 d => uint_val d (n * 10 + 8)
  | Decimal.D9 d => uint_val d (n * 10 + 9)
  end.

Fixpoint all_digits (s : string) : bool :=
  match s with
  | EmptyString => true
  | String c rest => is_digit c && all_digits rest
  end.

(** Every section pointer of the configuration is allocated. *)
Definition wf_config (h : Heap) (c : Config) : Prop :=
  Forall (fun p => is_Some (sections h !! p)) (cfgSections c).

(** The pointer [p] leads to a section of type [T]. *)
Definition has_type (h : Heap) (T : string) (p : addr) : Prop :=
  secType <$> sections h !! p = Some T.

#[global] Instance has_type_dec h T p : Decision (has_type h T p).
Proof. unfold has_type. apply _. Defined.

(** The pointer [p] leads to a section named [name]. *)
Definition has_name (h : Heap) (name : string) (p : addr) : Prop :=
  secName <$> sections h !! p = Some name.

#[global] Instance has_name_dec h name p : Decision (has_name h name p).
Proof. unfold has_name. apply _. Defined.

(** The sections of type [T], in declaration order. *)
Definition sections_of_type (h : Heap) (c : Config) (T : string) : list addr :=
  filter (has_type h T) (cfgSections c).

(** The types of all sections are free of regexp metacharacters. *)
Definition literal_types (h : Heap) (c : Config) : Prop :=
  Forall (fun p => forall sec, sections h !! p = Some sec ->
                               regexp_literal (secType sec) = true)
         (cfgSections c).

(** The position, in the list of section pointers, of the [(n+1)]-th
    section of type [T]. *)
Fixpoint nth_of_type (h : Heap) (secs : list addr) (T : string) (n : nat)
  : option nat :=
  match secs with
  | [] => None
  | p :: rest =>
      if decide (has_type h T p) then
        match n with
        | O => Some O
        | S n' => S <$> nth_of_type h rest T n'
        end
      else S <$> nth_of_type h rest T n
  end.

(** The configuration without the section at position [k]. *)
Definition without (c : Config) (k : nat) : Config :=
  mkConfig (cfgName c) (delete k (cfgSections c)) (tainted c).

(** ** The text of a configuration, as the serializer is described *)

(** The options behind a list of option pointers, and the tree behind a
    list of section pointers; [None] when a pointer is not allocated. *)
Fixpoint resolve_options (h : Heap) (opts : list addr) : option (list OptionT) :=
  match opts with
  | [] => Some []
  | o :: rest =>
      match options h !! o, resolve_options h rest with
      | Some opt, Some tl => Some (opt :: tl)
      | _, _ => None
      end
  end.

Fixpoint resolve_sections (h : Heap) (secs : list addr)
  : option (list (SectionT * list OptionT)) :=
  match secs with
  | [] => Some []
  | p :: rest =>
      match sections h !! p with
      | Some sec =>
          match resolve_options h (secOptions sec), resolve_sections h rest with
          | Some opts, Some tl => Some ((sec, opts) :: tl)
          | _, _ => None
          end
      | None => None
      end
  end.

Definition resolve (h : Heap) (c : Config) : option (list (SectionT * list OptionT)) :=
  resolve_sections h (cfgSections c).







#[global] Instance result_eq_dec {A : Type} `{EqDecision A} : EqDecision (result A).
Proof. solve_decision. Defined.

(** The section [p] of the configuration has the identity key [key]:
    its name, or its placeholder when it has none. *)
Definition has_key (h : Heap) (c : Config) (key : string) (p : addr) : bool :=
  bool_decide (Config_sectionName h c p = Ok key).

(** What the scan of [unmangleSectionName] lets pass apart from the first
    opening bracket: no '@', no '[', and a ']' at offset [ket] only; [i]
    is the offset of the first byte of [s]. *)
Fixpoint scan_ok (s : string) (i ket : nat) : bool :=
  match s with
  | EmptyString => true
  | String c rest =>
      negb (Ascii.eqb c "@") && negb (Ascii.eqb c "[")
      && (negb (Ascii.eqb c "]") || (i =? ket)%nat)
      && scan_ok rest (S i) ket
  end.

(** * A sample tree

    The configuration of the package's lookup test: a named section of
    type [foo] followed by two unnamed ones. *)

Definition ex_heap : Heap :=
  mkHeap
    (list_to_map
       [(1%nat, mkSection "named" "foo" [10; 11; 12]%nat);
        (2%nat, mkSection "" "foo" [13; 14; 15]%nat);
        (3%nat, mkSection "" "foo" [16; 17; 18]%nat)])
    (list_to_map
       [(10%nat, mkOption "pos" ["3"] TypeOption);
        (11%nat, mkOption "unnamed" ["0"] TypeOption);
        (12%nat, mkOption "list" ["0"; "30"] TypeList);
        (13%nat, mkOption "pos" ["1"] TypeOption);
        (14%nat, mkOption "unnamed" ["1"] TypeOption);
        (15%nat, mkOption "list" ["10"] TypeOption);
        (16%nat, mkOption "pos" ["2"] TypeOption);
        (17%nat, mkOption "unnamed" ["1"] TypeOption);
        (18%nat, mkOption "list" ["20"] TypeList)]).

Definition ex_config : Config := mkConfig "unnamed" [1; 2; 3]%nat false.

(** Two sections of type [a] that bear placeholder names which no longer
    match their positions, as after the deletion of a section "@a[0]"
    that preceded them. *)
Definition stale_heap : Heap :=
  mkHeap
    (list_to_map
       [(1%nat, mkSection "@a[1]" "a" []);
        (2%nat, mkSection "@a[2]" "a" [])])
    ∅.

Definition stale_config : Config := mkConfig "stale" [1; 2]%nat false.

(** A list option with one value. *)
Definition list_heap : Heap :=
  mkHeap ∅ (list_to_map [(1%nat, mkOption "ports" ["22"] TypeList)]).

(** A configuration with the named section "lan"; the section at address
    2 is unnamed and not part of it: a section built in isolation, as an
    overlay fragment would pass to [Config.Merge]. *)
Definition overlay_heap : Heap :=
  mkHeap
    (list_to_map
       [(1%nat, mkSection "lan" "interface" [10%nat]);
        (2%nat, mkSection "" "interface" [11%nat]);
        (3%nat, mkSection "lan" "interface" [11%nat]);
        (4%nat, mkSection "wan" "interface" [11%nat])])
    (list_to_map
       [(10%nat, mkOption "proto" ["static"] TypeOption);
        (11%nat, mkOption "mtu" ["1500"] TypeOption)]).

Definition overlay_config : Config := mkConfig "network" [1%nat] false.


(** * The other functions of [types.go] *)

(** ** Construction

    [&Section{...}] allocates: the address returned is one that the heap
    does not hold. *)

Definition newSection (h : Heap) (typ name : string) : Heap * addr :=
  let p := fresh (dom (sections h)) in
  (setSection h p (mkSection name typ []), p).

(** ** Options of a section *)

Fixpoint Section_Get_loop (h : Heap) (opts : list addr) (name : string)
  : result (option addr) :=
  match opts with
  | [] => Ok None
  | p :: rest =>
      do opt <- getOption h p;
      if bool_decide (optName opt = name) then Ok (Some p)
      else Section_Get_loop h rest name
  end.

Definition Section_Get (h : Heap) (s : addr) (name : string)
  : result (option addr) :=
  do sec <- getSection h s;
  Section_Get_loop h (secOptions sec) name.

Fixpoint OptionValue_loop (h : Heap) (opts : list addr) (name : string)
  (values : list string) : result (list string) :=
  match opts with
  | [] => Ok values
  | p :: rest =>
      do opt <- getOption h p;
      if bool_decide (optName opt = name) then Ok (optValues opt)
      else OptionValue_loop h rest name values
  end.

Definition Section_OptionValue (h : Heap) (s : addr) (name : string)
  (values : list string) : result (list string) :=
  do sec <- getSection h s;
  OptionValue_loop h (secOptions sec) name values.

(** [opt.Values[len(opt.Values)-1]] panics on an empty slice. *)
Fixpoint OptionLastValue_loop (h : Heap) (opts : list addr) (name : string)
  (value : string) : result string :=
  match opts with
  | [] => Ok value
  | p :: rest =>
      do opt <- getOption h p;
      if bool_decide (optName opt = name) then
        match last (optValues opt) with
        | Some v => Ok v
        | None => Panic "index out of range [-1]"
        end
      else OptionLastValue_loop h rest name value
  end.

Definition Section_OptionLastValue (h : Heap) (s : addr) (name : string)
  (value : string) : result string :=
  do sec <- getSection h s;
  OptionLastValue_loop h (secOptions sec) name value.

(** ** PlaceholderSection2Num

    The pattern [^@(.*?)\[(\d+)\]$] is fixed.  After the at sign the
    matcher tries, at each offset from the left, the rest of the pattern
    ([\[(\d+)\]$]) before it lets the lazy [.*?] take one more byte, and a
    dot takes any byte but the line feed: [placeholder_digits] is this
    search and returns what the group [(\d+)] holds.  The failure of
    [strconv.Atoi] is dropped, its number is returned. *)

Inductive PlaceholderError : Type := ErrPlaceholderFormat.

Fixpoint digits_prefix (s : string) : string :=
  match s with
  | EmptyString => ""
  | String c rest => if is_digit c then String c (digits_prefix rest) else ""
  end.

Fixpoint placeholder_digits (s : string) : option string :=
  match s with
  | EmptyString => None
  | String c rest =>
      if Ascii.eqb c "[" && match_digits_ket rest false
      then Some (digits_prefix rest)
      else if Ascii.eqb c "010" then None
      else placeholder_digits rest
  end.

Definition PlaceholderSection2Num (section : string)
  : Z * option PlaceholderError :=
  match section with
  | String c rest =>
      if Ascii.eqb c "@" then
        match placeholder_digits rest with
        | Some digits => ((Atoi digits).1, None)
        | None => (0, Some ErrPlaceholderFormat)
        end
      else (0, Some ErrPlaceholderFormat)
  | EmptyString => (0, Some ErrPlaceholderFormat)
  end.

(** * Vocabulary of the further statements *)

(** Every option pointer of the list is allocated. *)
Definition wf_options (h : Heap) (opts : list addr) : Prop :=
  Forall (fun q => is_Some (options h !! q)) opts.

(** The pointer [q] leads to an option named [name]. *)
Definition opt_named (h : Heap) (name : string) (q : addr) : Prop :=
  optName <$> options h !! q = Some name.

#[global] Instance opt_named_dec h name q : Decision (opt_named h name q).
Proof. unfold opt_named. apply _. Defined.

(** No line feed among the bytes. *)
Fixpoint no_newline (s : string) : bool :=
  match s with
  | EmptyString => true
  | String c rest => negb (Ascii.eqb c "010") && no_newline rest
  end.

(** A [TypeOption] option that holds no value. *)
Definition option_without_value (o : OptionT) : Prop :=
  optType o = TypeOption /\ optValues o = [].

(** What merging options into sections keeps of a heap: every option is
    still there under its name with at least the values it held, and
    every section is still there with its options in front of the options
    it has now. *)
Definition heap_grows (h h' : Heap) : Prop :=
  (forall q opt, options h !! q = Some opt ->
     exists opt', options h' !! q = Some opt'
                  /\ optName opt' = optName opt
                  /\ forall v, v ∈ optValues opt -> v ∈ optValues opt')
  /\ (forall p sec, sections h !! p = Some sec ->
     exists sec', sections h' !! p = Some sec'
                  /\ secOptions sec `prefix_of` secOptions sec').
(** * Byte strings *)

Section strings.
Implicit Types (s r t : string) (c : ascii) (n m i : nat).

Lemma append_cons a s r : String a s +:+ r = String a (s +:+ r).
Proof. reflexivity. Qed.



Lemma string_length_app s r :
  String.length (s +:+ r) = (String.length s + String.length r)%nat.
Proof. induction s as [|c s IH]; simpl; [done | by rewrite IH]. Qed.

Lemma substring_all s r : substring 0 (String.length s) (s +:+ r) = s.
Proof. induction s as [|c s IH]; simpl; [by destruct r | by rewrite IH]. Qed.

Lemma substring_skip s r n m :
  substring (String.length s + n) m (s +:+ r) = substring n m r.
Proof. induction s as [|c s IH]; simpl; done. Qed.


Lemma get_0_inv s c : get 0 s = Some c -> exists r, s = String c r.
Proof. destruct s as [|c' r]; simpl; [done | intros [= ->]; eauto]. Qed.

Lemma strip_prefix_app t s r : strip_prefix t s = Some r -> s = t +:+ r.
Proof.
  revert s. induction t as [|a t IH]; intros s; simpl.
  - by intros [= ->].
  - destruct s as [|b s]; [done |].
    destruct (Ascii.eqb_spec a b) as [-> | _]; [| done].
    intros H. by rewrite (IH _ H).
Qed.

Lemma strip_prefix_refl t r : strip_prefix t (t +:+ r) = Some r.
Proof.
  induction t as [|a t IH]; simpl; [done |]. by rewrite Ascii.eqb_refl.
Qed.

Lemma plain_byte_inv c :
  plain_byte c = true ->
  Ascii.eqb c "@" = false /\ Ascii.eqb c "[" = false /\ Ascii.eqb c "]" = false.
Proof.
  unfold plain_byte. rewrite !andb_true_iff, !negb_true_iff. tauto.
Qed.

Lemma plain_app s r : plain (s +:+ r) = plain s && plain r.
Proof.
  induction s as [|c s IH]; simpl; [done |]. by rewrite IH, andb_assoc.
Qed.

Lemma is_digit_plain c : is_digit c = true -> plain_byte c = true.
Proof.
  unfold is_digit, plain_byte. rewrite andb_true_iff.
  intros [H1%Nat.leb_le H2%Nat.leb_le].
  destruct (Ascii.eqb_spec c "@") as [-> |]; [vm_compute in H2; lia |].
  destruct (Ascii.eqb_spec c "[") as [-> |]; [vm_compute in H2; lia |].
  destruct (Ascii.eqb_spec c "]") as [-> |]; [vm_compute in H2; lia | done].
Qed.

Lemma all_digits_plain s : all_digits s = true -> plain s = true.
Proof.
  induction s as [|c s IH]; simpl; [done |].
  rewrite !andb_true_iff. intros [Hc Hs]. auto using is_digit_plain.
Qed.
End strings.

(** * strconv.Atoi and strconv.Itoa *)

Section atoi.
Implicit Types (s : string) (c : ascii) (d : Decimal.uint) (n : Z).

Lemma digit_val_range c : is_digit c = true -> 0 <= digit_val c <= 9.
Proof.
  unfold is_digit, digit_val. rewrite andb_true_iff.
  intros [H1%Nat.leb_le H2%Nat.leb_le]. lia.
Qed.

Lemma ParseUint_loop_step c s n :
  is_digit c = true -> 0 <= n -> n * 10 + digit_val c <= maxUint64 ->
  ParseUint_loop (String c s) n = ParseUint_loop s (n * 10 + digit_val c).
Proof.
  intros Hc Hn Hle. pose proof (digit_val_range c Hc) as Hd.
  cbn [ParseUint_loop]. rewrite Hc.
  unfold maxUint64 in *.
  replace (((2 ^ 64 - 1) / 10 + 1 <=? n)) with false
    by (symmetry; apply Z.leb_gt; change ((2 ^ 64 - 1) / 10) with 1844674407370955161; lia).
  cbv zeta. rewrite (Z.mod_small (n * 10 + digit_val c)) by lia.
  replace (n * 10 + digit_val c <? n * 10) with false by (symmetry; apply Z.ltb_ge; lia).
  replace (2 ^ 64 - 1 <? n * 10 + digit_val c) with false by (symmetry; apply Z.ltb_ge; lia).
  done.
Qed.

Lemma ParseUint_loop_nonneg s n : 0 <= n -> 0 <= (ParseUint_loop s n).1.
Proof.
  revert n. induction s as [|c s IH]; intros n Hn; cbn [ParseUint_loop]; [done |].
  destruct (is_digit c); [| done].
  destruct (_ <=? n); [done |]. cbv zeta.
  destruct (_ || _); [done |].
  apply IH. apply Z.mod_pos_bound. done.
Qed.

Lemma uint_val_ge d n : 0 <= n -> n <= uint_val d n.
Proof.
  revert n. induction d as [|d IH|d IH|d IH|d IH|d IH|d IH|d IH|d IH|d IH|d IH];
    intros n Hn; cbn [uint_val]; [lia | ..];
    (etrans; [| apply IH]; lia).
Qed.

Lemma ParseUint_loop_uint d n :
  0 <= n -> uint_val d n <= maxUint64 ->
  ParseUint_loop (NilEmpty.string_of_uint d) n = (uint_val d n, None).
Proof.
  revert n. induction d as [|d IH|d IH|d IH|d IH|d IH|d IH|d IH|d IH|d IH|d IH];
    intros n Hn Hle; cbn [uint_val NilEmpty.string_of_uint] in *; [done | ..];
    (rewrite ParseUint_loop_step;
     [apply IH | done | done | etrans; [apply uint_val_ge |]];
     change (digit_val _) with 0 || change (digit_val _) with 1 ||
     change (digit_val _) with 2 || change (digit_val _) with 3 ||
     change (digit_val _) with 4 || change (digit_val _) with 5 ||
     change (digit_val _) with 6 || change (digit_val _) with 7 ||
     change (digit_val _) with 8 || change (digit_val _) with 9;
     try done; lia).
Qed.

Lemma of_uint_acc_val d acc :
  Z.pos (Pos.of_uint_acc d acc) = uint_val d (Z.pos acc).
Proof.
  revert acc. induction d as [|d IH|d IH|d IH|d IH|d IH|d IH|d IH|d IH|d IH|d IH];
    intros acc; cbn [uint_val Pos.of_uint_acc]; [done | ..];
    rewrite IH; f_equal; lia.
Qed.

Lemma of_uint_val d : Z.of_N (Pos.of_uint d) = uint_val d 0.
Proof.
  induction d as [|d IH|d IH|d IH|d IH|d IH|d IH|d IH|d IH|d IH|d IH];
    cbn [uint_val Pos.of_uint]; [done | apply IH | ..];
    (cbn [Z.of_N]; rewrite of_uint_acc_val; done).
Qed.

Lemma to_uint_val p : uint_val (Pos.to_uint p) 0 = Z.pos p.
Proof. by rewrite <- of_uint_val, DecimalPos.Unsigned.of_to. Qed.
End atoi.

Section itoa.
Implicit Types (s r : string) (c : ascii) (d : Decimal.uint) (n v : Z).

Lemma is_digit_not_sign c :
  is_digit c = true -> Ascii.eqb c "-" = false /\ Ascii.eqb c "+" = false.
Proof.
  unfold is_digit. rewrite andb_true_iff. intros [H1%Nat.leb_le _].
  split; apply Ascii.eqb_neq; intros ->; vm_compute in H1; lia.
Qed.

Lemma string_of_uint_digits d : all_digits (NilEmpty.string_of_uint d) = true.
Proof. induction d; simpl; done. Qed.

Lemma string_of_uint_nonnil d :
  d <> Decimal.Nil -> NilZero.string_of_uint d = NilEmpty.string_of_uint d.
Proof. by destruct d. Qed.

Lemma all_digits_cons s :
  all_digits s = true -> s <> "" ->
  exists c r, s = String c r /\ is_digit c = true.
Proof.
  destruct s as [|c r]; [done |]. simpl. rewrite andb_true_iff.
  intros [Hc _] _. eauto.
Qed.

Lemma string_of_uint_nonempty d :
  d <> Decimal.Nil -> NilEmpty.string_of_uint d <> "".
Proof. by destruct d. Qed.

(** [ParseInt] on an unsigned string of digits. *)
Lemma ParseInt_unsigned s v :
  all_digits s = true -> s <> "" ->
  ParseUint_loop s 0 = (v, None) -> v < 2 ^ 63 ->
  ParseInt s = (v, None).
Proof.
  intros Hd Hne Hloop Hv.
  destruct (all_digits_cons s Hd Hne) as (c & r & -> & Hc).
  destruct (is_digit_not_sign c Hc) as [Hm Hp].
  unfold ParseInt. rewrite Hm, Hp. cbn [orb negb andb].
  unfold ParseUint. rewrite Hloop.
  by replace (2 ^ 63 <=? v) with false by (symmetry; apply Z.leb_gt; lia).
Qed.

(** [ParseInt] on a minus sign followed by digits. *)
Lemma ParseInt_negative s v :
  s <> "" -> ParseUint_loop s 0 = (v, None) -> v <= 2 ^ 63 ->
  ParseInt (String "-" s) = (- v, None).
Proof.
  intros Hne Hloop Hv. unfold ParseInt.
  change (Ascii.eqb "-" "-") with true. change (Ascii.eqb "-" "+") with false.
  cbn [orb negb andb]. unfold ParseUint. destruct s as [|c r]; [done |].
  rewrite Hloop.
  by replace (2 ^ 63 <? v) with false by (symmetry; apply Z.ltb_ge; lia).
Qed.

Lemma ParseUint_loop_pos p :
  Z.pos p <= maxUint64 ->
  ParseUint_loop (NilEmpty.string_of_uint (Pos.to_uint p)) 0 = (Z.pos p, None).
Proof.
  intros Hp. rewrite ParseUint_loop_uint; rewrite ?to_uint_val; done.
Qed.

(** Parsing what [Itoa] prints gives the number back. *)
Lemma Atoi_Itoa n : int_range n -> Atoi (Itoa n) = (n, None).
Proof.
  unfold int_range, Atoi, Itoa. intros Hn.
  destruct n as [|p|p]; [done | ..]; cbn [Z.to_int NilZero.string_of_int].
  - rewrite string_of_uint_nonnil by apply Unsigned.to_uint_nonnil.
    apply ParseInt_unsigned; [apply string_of_uint_digits | | | lia].
    + apply string_of_uint_nonempty, Unsigned.to_uint_nonnil.
    + apply ParseUint_loop_pos. unfold maxUint64. lia.
  - rewrite string_of_uint_nonnil by apply Unsigned.to_uint_nonnil.
    change (Z.neg p) with (- Z.pos p).
    apply ParseInt_negative; [| | lia].
    + apply string_of_uint_nonempty, Unsigned.to_uint_nonnil.
    + apply ParseUint_loop_pos. unfold maxUint64. lia.
Qed.

Lemma Itoa_plain n : plain (Itoa n) = true.
Proof.
  assert (forall d, plain (NilZero.string_of_uint d) = true) as Hu.
  { intros d. destruct d; [done | ..];
      (rewrite string_of_uint_nonnil by done;
       apply all_digits_plain, string_of_uint_digits). }
  unfold Itoa. destruct (Z.to_int n); cbn [NilZero.string_of_int plain].
  - apply Hu.
  - by rewrite Hu.
Qed.

Lemma Itoa_nonempty n : Itoa n <> "".
Proof.
  unfold Itoa. destruct n as [|p|p]; [done | | done].
  cbn [Z.to_int NilZero.string_of_int].
  rewrite string_of_uint_nonnil by apply Unsigned.to_uint_nonnil.
  apply string_of_uint_nonempty, Unsigned.to_uint_nonnil.
Qed.

End itoa.

(** * The selector parser *)

Section language.
Implicit Types (s r T name pre post : string) (c : ascii) (i j bra ket b : nat).

Lemma unmangle_scan_plain s r i bra ket :
  plain s = true ->
  unmangle_scan (s +:+ r) i bra ket
  = unmangle_scan r (i + String.length s) bra ket.
Proof.
  revert i. induction s as [|c s IH]; intros i; simpl.
  - by rewrite Nat.add_0_r.
  - rewrite andb_true_iff. intros [(Hat & Hbra & Hket)%plain_byte_inv Hs].
    rewrite Hat, Hbra, Hket, andb_false_r. cbn [andb].
    rewrite IH by done. f_equal. lia.
Qed.

(** What a successful parse went through. *)
Lemma unmangle_ok_inv name T idx :
  unmangleSectionName name = (T, idx, None) ->
  exists bra,
    let ket := (String.length name - 1)%nat in
    get 0 name = Some "@"%char
    /\ unmangle_scan name 0 0 ket = inr bra
    /\ (0 < bra < ket)%nat
    /\ T = substring 1 (bra - 1) name
    /\ Atoi (substring (bra + 1) (ket - (bra + 1)) name) = (idx, None)
    /\ (5 <= String.length name)%nat.
Proof.
  unfold unmangleSectionName. destruct (Nat.ltb_spec (String.length name) 5); [done |].
  case_bool_decide as Hget; [| done]. cbn [negb].
  destruct (unmangle_scan _ _ _ _) as [e | bra] eqn:Hscan; [done |].
  destruct (Nat.eqb_spec bra 0); [done |].
  destruct (Nat.leb_spec (String.length name - 1) bra); [done |]. cbn [orb].
  destruct (Atoi _) as [index [e |]] eqn:Hatoi; [done |].
  intros [= <- <-]. exists bra. repeat split; try done; lia.
Qed.


Lemma scan_after_bra s i bra ket b :
  (0 < bra)%nat -> (0 < i)%nat ->
  unmangle_scan s i bra ket = inr b <-> b = bra /\ scan_ok s i ket = true.
Proof.
  intros Hbra. revert i. induction s as [|c s IH]; intros i Hi; cbn [unmangle_scan scan_ok].
  - split; [by intros [= <-] | by intros [-> _]].
  - destruct (Nat.eqb_spec i 0); [lia |]. cbn [negb andb].
    destruct (Nat.ltb_spec 0 bra); [| lia]. rewrite andb_true_r.
    destruct (Ascii.eqb c "@"); [by split; [| intros []] |].
    destruct (Ascii.eqb c "["); [by split; [| intros []] |].
    cbn [negb andb]. destruct (Ascii.eqb c "]"); cbn [negb andb orb].
    + destruct (i =? ket)%nat; cbn [negb]; [by apply IH; lia |].
      by split; [| intros []].
    + apply IH. lia.
Qed.

Lemma scan_before_bra s i ket b :
  (0 < i)%nat -> unmangle_scan s i 0 ket = inr b ->
  (b = 0%nat /\ scan_ok s i ket = true)
  \/ exists pre post,
       s = pre +:+ String "[" post
       /\ b = (i + String.length pre)%nat
       /\ scan_ok pre i ket = true
       /\ scan_ok post (S (i + String.length pre)) ket = true.
Proof.
  revert i. induction s as [|c s IH]; intros i Hi; cbn [unmangle_scan scan_ok].
  - intros [= <-]. by left.
  - destruct (Nat.eqb_spec i 0); [lia |]. cbn [negb andb Nat.ltb Nat.leb].
    rewrite andb_false_r.
    destruct (Ascii.eqb c "@") eqn:Eat; [done |].
    destruct (Ascii.eqb_spec c "[") as [-> | Hc].
    + change (Ascii.eqb "[" "]") with false. cbn [andb].
      intros [-> Hok]%scan_after_bra; [| done | lia].
      right. exists "", s. rewrite Nat.add_0_r. done.
    + apply Ascii.eqb_neq in Hc.
      assert (unmangle_scan s (S i) 0 ket = inr b ->
              (negb (Ascii.eqb c "]") || (i =? ket)%nat) = true ->
              (b = 0%nat /\ negb false && negb false
                            && (negb (Ascii.eqb c "]") || (i =? ket)%nat)
                            && scan_ok s (S i) ket = true)
              \/ exists pre post,
                   String c s = pre +:+ String "[" post
                   /\ b = (i + String.length pre)%nat
                   /\ scan_ok pre i ket = true
                   /\ scan_ok post (S (i + String.length pre)) ket = true) as Hstep.
      { intros [[-> Hok] | (pre & post & -> & -> & Hpre & Hpost)]%IH Hket; [| | lia].
        { left. by rewrite Hket, Hok. }
        right. exists (String c pre), post. cbn [String.length scan_ok].
        rewrite Nat.add_succ_r, Eat, Hc, Hket, Hpre. done. }
      cbn [negb andb]. destruct (Ascii.eqb c "]"); cbn [negb andb orb] in *.
      * destruct (i =? ket)%nat; cbn [negb] in *; [auto | done].
      * auto.
Qed.

Lemma scan_ok_plain s i ket :
  scan_ok s i ket = true -> (i + String.length s <= ket)%nat -> plain s = true.
Proof.
  revert i. induction s as [|c s IH]; intros i; cbn [scan_ok plain String.length]; [done |].
  rewrite !andb_true_iff, orb_true_iff. intros [[[Hat Hbra] Hket] Hs] Hlen.
  split; [| apply (IH (S i)); [done | lia]].
  unfold plain_byte. rewrite Hat, Hbra. cbn [andb].
  destruct Hket as [-> | Heq%Nat.eqb_eq]; [done | lia].
Qed.

Lemma plain_scan_ok s i ket : plain s = true -> scan_ok s i ket = true.
Proof.
  revert i. induction s as [|c s IH]; intros i; cbn [scan_ok plain]; [done |].
  rewrite andb_true_iff. intros [(Hat & Hbra & Hket)%plain_byte_inv Hs].
  rewrite Hat, Hbra, Hket. cbn [negb andb orb]. auto.
Qed.

(** A string is its last byte after the others. *)
Lemma string_last s : s <> "" -> exists r c, s = r +:+ String c "".
Proof.
  induction s as [|a s IH]; [done |]. intros _.
  destruct s as [|a' s'].
  - by exists "", a.
  - destruct IH as (r & c & ->); [done |]. by exists (String a r), c.
Qed.

Lemma scan_ok_app s r i ket :
  scan_ok (s +:+ r) i ket = scan_ok s i ket && scan_ok r (i + String.length s) ket.
Proof.
  revert i. induction s as [|c s IH]; intros i.
  - cbn [append scan_ok String.length andb]. by rewrite Nat.add_0_r.
  - rewrite append_cons. cbn [append scan_ok String.length].
    rewrite IH, Nat.add_succ_r, !andb_assoc. done.
Qed.
Lemma unmangle_scan_shape T s c :
  plain T = true -> plain s = true -> c <> "@"%char -> c <> "["%char ->
  unmangle_scan ("@" +:+ T +:+ "[" +:+ s +:+ String c "") 0 0
    (String.length T + String.length s + 2)
  = inr (S (String.length T)).
Proof.
  intros HT Hs Hat Hbra.
  change ("@" +:+ T +:+ "[" +:+ s +:+ String c "")
    with (String "@" (T +:+ String "[" (s +:+ String c ""))).
  cbn [unmangle_scan Nat.eqb negb andb].
  change (Ascii.eqb "@" "[") with false. change (Ascii.eqb "@" "]") with false.
  cbn [andb]. rewrite unmangle_scan_plain by done.
  cbn [unmangle_scan Nat.add Nat.eqb negb andb Nat.ltb Nat.leb].
  change (Ascii.eqb "[" "@") with false. change (Ascii.eqb "[" "]") with false.
  change (Ascii.eqb "[" "[") with true. cbn [andb].
  apply scan_after_bra; [lia | lia |]. split; [done |].
  rewrite scan_ok_app, plain_scan_ok by done. cbn [andb scan_ok].
  apply Ascii.eqb_neq in Hat, Hbra. rewrite Hat, Hbra. cbn [negb andb].
  rewrite andb_true_r. apply orb_true_iff. right. apply Nat.eqb_eq. lia.
Qed.

(** The parser accepts "@", plain bytes, "[", plain bytes that
    [strconv.Atoi] takes, and one more byte that is neither '@' nor '[',
    in at least five bytes. *)
Lemma unmangle_shape T s c :
  plain T = true -> plain s = true -> s <> "" ->
  c <> "@"%char -> c <> "["%char ->
  (5 <= String.length ("@" +:+ T +:+ "[" +:+ s +:+ String c ""))%nat ->
  unmangleSectionName ("@" +:+ T +:+ "[" +:+ s +:+ String c "")
  = (T, (Atoi s).1, ErrIndexNotNumeric <$> (Atoi s).2).
Proof.
  intros HT Hs Hsne Hat Hbra.
  assert (1 <= String.length s)%nat as Hls by (destruct s; [done | simpl; lia]).
  unfold unmangleSectionName.
  assert (String.length ("@" +:+ T +:+ "[" +:+ s +:+ String c "")
          = (String.length T + String.length s + 3)%nat) as ->.
  { rewrite !string_length_app. simpl. lia. }
  intros Hlen.
  destruct (Nat.ltb_spec (String.length T + String.length s + 3) 5); [lia |].
  change (get 0 ("@" +:+ T +:+ "[" +:+ s +:+ String c "")) with (Some "@"%char).
  rewrite bool_decide_eq_true_2 by done. cbn [negb].
  replace (String.length T + String.length s + 3 - 1)%nat
    with (String.length T + String.length s + 2)%nat by lia.
  rewrite unmangle_scan_shape by done.
  cbn [Nat.eqb orb].
  destruct (Nat.leb_spec (String.length T + String.length s + 2) (S (String.length T)));
    [lia |].
  change ("@" +:+ T +:+ "[" +:+ s +:+ String c "")
    with (String "@" (T +:+ String "[" (s +:+ String c ""))).
  replace (S (String.length T) - 1)%nat with (String.length T) by lia.
  replace (S (String.length T) + 1)%nat with (S (String.length T + 1)) by lia.
  replace (String.length T + String.length s + 2 - S (String.length T + 1))%nat
    with (String.length s) by lia.
  cbn [substring]. rewrite substring_all, substring_skip.
  cbn [substring]. rewrite substring_all.
  by destruct (Atoi s).
Qed.

(** The selectors that [unmangleSectionName] parses, exactly. *)
Lemma unmangle_ok_iff name T idx :
  unmangleSectionName name = (T, idx, None)
  <-> exists s c,
        name = "@" +:+ T +:+ "[" +:+ s +:+ String c ""
        /\ plain T = true /\ plain s = true
        /\ c <> "@"%char /\ c <> "["%char
        /\ (5 <= String.length name)%nat
        /\ Atoi s = (idx, None).
Proof.
  split.
  - intros (bra & Hat & Hscan & Hbra & HT & Hatoi & Hlen)%unmangle_ok_inv.
    destruct (get_0_inv _ _ Hat) as [rest ->].
    cbn [unmangle_scan Nat.eqb negb andb] in Hscan.
    change (Ascii.eqb "@" "[") with false in Hscan.
    change (Ascii.eqb "@" "]") with false in Hscan. cbn [andb] in Hscan.
    apply scan_before_bra in Hscan as [[-> _] | (pre & post & -> & -> & Hpre & Hpost)];
      [lia | | lia].
    cbn [String.length] in *. rewrite string_length_app in *.
    cbn [String.length] in *.
    destruct (string_last post) as (s & c & ->).
    { intros ->. simpl in Hbra. lia. }
    rewrite string_length_app in *. cbn [String.length] in *.
    rewrite scan_ok_app in Hpost. apply andb_true_iff in Hpost as [Hs Hc].
    cbn [scan_ok] in Hc. rewrite !andb_true_iff, !negb_true_iff in Hc.
    destruct Hc as [[[Hcat Hcbra] _] _].
    apply scan_ok_plain in Hpre; [| lia]. apply scan_ok_plain in Hs; [| lia].
    replace (1 + String.length pre - 1)%nat with (String.length pre) in HT by lia.
    cbn [substring] in HT. rewrite substring_all in HT. subst T.
    replace (1 + String.length pre + 1)%nat
      with (S (String.length pre + 1)) in Hatoi by lia.
    replace (S (String.length pre + S (String.length s + 1)) - 1
             - S (String.length pre + 1))%nat
      with (String.length s) in Hatoi by lia.
    cbn [substring] in Hatoi. rewrite substring_skip in Hatoi.
    cbn [substring] in Hatoi. rewrite substring_all in Hatoi.
    exists s, c. repeat split; try done; by apply Ascii.eqb_neq.
  - intros (s & c & -> & HT & Hs & Hat & Hbra & Hlen & Hatoi).
    rewrite unmangle_shape; try done.
    + by rewrite Hatoi.
    + intros ->. done.
Qed.

(** Every string of the selector grammar is parsed, its index by
    [strconv.Atoi]. *)
Lemma unmangle_selector T s :
  selector_type T = true -> plain s = true -> s <> "" ->
  unmangleSectionName ("@" +:+ T +:+ "[" +:+ s +:+ "]")
  = (T, (Atoi s).1, ErrIndexNotNumeric <$> (Atoi s).2).
Proof.
  unfold selector_type. rewrite andb_true_iff, negb_true_iff, bool_decide_eq_false.
  intros [HTne HT] Hs Hsne.
  apply (unmangle_shape T s "]"); try done.
  assert (1 <= String.length T)%nat by (destruct T; [done | simpl; lia]).
  assert (1 <= String.length s)%nat by (destruct s; [done | simpl; lia]).
  rewrite !string_length_app. simpl. lia.
Qed.

(** The selector that [Num2PlaceholderSection] prints is parsed back. *)
Lemma unmangle_Num2PlaceholderSection T n :
  selector_type T = true -> int_range n ->
  unmangleSectionName (Num2PlaceholderSection T n) = (T, n, None).
Proof.
  intros HT Hn. unfold Num2PlaceholderSection.
  rewrite unmangle_selector by auto using Itoa_plain, Itoa_nonempty.
  by rewrite Atoi_Itoa.
Qed.
End language.

(** * Lookup *)

Section lookup.
Implicit Types (h : Heap) (c : Config) (secs : list addr) (p : addr)
  (T name : string) (sec : SectionT) (n idx i : Z).

Lemma getSection_Some h p sec :
  sections h !! p = Some sec -> getSection h p = Ok sec.
Proof. unfold getSection. by intros ->. Qed.

Lemma has_type_lookup h T p sec :
  sections h !! p = Some sec -> has_type h T p <-> secType sec = T.
Proof. unfold has_type. intros ->. simpl. naive_solver. Qed.

Lemma has_name_lookup h name p sec :
  sections h !! p = Some sec -> has_name h name p <-> secName sec = name.
Proof. unfold has_name. intros ->. simpl. naive_solver. Qed.

Lemma count_loop_spec h secs T n :
  Forall (fun p => is_Some (sections h !! p)) secs ->
  count_loop h secs T n
  = Ok (n + Z.of_nat (length (filter (has_type h T) secs))).
Proof.
  intros Hwf. revert n.
  induction Hwf as [|p secs [sec Hp] _ IH]; intros n; cbn [count_loop].
  - f_equal. simpl. lia.
  - rewrite (getSection_Some _ _ _ Hp). cbn [rbind]. rewrite filter_cons.
    pose proof (has_type_lookup h T p sec Hp) as Ht.
    destruct (decide (has_type h T p)) as [Hy | Hn].
    + rewrite bool_decide_eq_true_2 by tauto. rewrite IH.
      f_equal. cbn [length]. lia.
    + rewrite bool_decide_eq_false_2 by tauto. apply IH.
Qed.

Lemma Config_count_spec h c T :
  wf_config h c ->
  Config_count h c T = Ok (Z.of_nat (length (sections_of_type h c T))).
Proof. intros Hwf. unfold Config_count. by rewrite count_loop_spec. Qed.

Lemma getUnnamed_loop_spec h secs T idx n :
  Forall (fun p => is_Some (sections h !! p)) secs -> n <= idx ->
  getUnnamed_loop h secs T idx n
  = Ok (filter (has_type h T) secs !! Z.to_nat (idx - n)).
Proof.
  intros Hwf. revert n.
  induction Hwf as [|p secs [sec Hp] _ IH]; intros n Hn; cbn [getUnnamed_loop].
  - done.
  - rewrite (getSection_Some _ _ _ Hp). cbn [rbind]. rewrite filter_cons.
    pose proof (has_type_lookup h T p sec Hp) as Ht.
    destruct (decide (has_type h T p)) as [Hy | Hno].
    + rewrite bool_decide_eq_true_2 by tauto.
      destruct (Z.eqb_spec idx n) as [-> | Hne].
      * by rewrite Z.sub_diag.
      * rewrite IH by lia.
        replace (Z.to_nat (idx - n)) with (S (Z.to_nat (idx - (n + 1)))) by lia.
        done.
    + rewrite bool_decide_eq_false_2 by tauto. by apply IH.
Qed.

(** A selector that parses starts with the at sign. *)
Lemma unmangle_ok_prefix name T i :
  unmangleSectionName name = (T, i, None) -> String.prefix "@" name = true.
Proof.
  unfold unmangleSectionName. destruct (_ <? 5)%nat; [done |].
  case_bool_decide as Hget; [| done].
  destruct (get_0_inv _ _ Hget) as [r ->]. intros _.
  apply prefix_correct. by destruct r.
Qed.

(** [getUnnamed] on a selector that parses. *)
Lemma getUnnamed_parsed h c name T i :
  wf_config h c -> unmangleSectionName name = (T, i, None) ->
  let count := Z.of_nat (length (sections_of_type h c T)) in
  Config_getUnnamed h c name
  = if (i <? - count) || (count <=? i)
    then Ok (None, Some ErrUnnamedIndexOutOfBounds)
    else Ok (sections_of_type h c T !! Z.to_nat (if i <? 0 then i + count else i),
             None).
Proof.
  intros Hwf Hparse count. unfold Config_getUnnamed. rewrite Hparse.
  rewrite Config_count_spec by done. cbn [rbind]. fold count.
  destruct (Z.ltb_spec i (- count)); [done |].
  destruct (Z.leb_spec count i); [done |]. cbn [orb].
  rewrite getUnnamed_loop_spec; [| done | destruct (Z.ltb_spec i 0); lia].
  cbn [rbind]. by rewrite Z.sub_0_r.
Qed.
(** [Config.Get] on the selector "@T[i]" as [Num2PlaceholderSection]
    prints it. *)
Lemma Get_Num2PlaceholderSection h c T i :
  wf_config h c -> selector_type T = true -> int_range i ->
  let count := Z.of_nat (length (sections_of_type h c T)) in
  - count <= i < count ->
  Config_Get h c (Num2PlaceholderSection T i)
  = Ok (sections_of_type h c T !! Z.to_nat (if i <? 0 then i + count else i)).
Proof.
  intros Hwf HT Hi count Hrange.
  pose proof (unmangle_Num2PlaceholderSection T i HT Hi) as Hparse.
  unfold Config_Get. rewrite (unmangle_ok_prefix _ _ _ Hparse).
  rewrite (getUnnamed_parsed h c _ T i Hwf Hparse). fold count.
  destruct (Z.ltb_spec i (- count)); [lia |].
  destruct (Z.leb_spec count i); [lia | done].
Qed.
End lookup.

(** * Positional lookup: the statements *)

Lemma ex_wf : wf_config ex_heap ex_config.
Proof. unfold wf_config. repeat constructor; by eexists. Qed.





(** C10.  For a selector that starts with the at sign and either does not
    parse or parses to an index outside [-count, count): the positional
    lookup returns an error and no section, and [Config.Get] returns nil,
    the error being dropped. *)
Theorem Get_discards_error (h : Heap) (c : Config) (name : string) :
  String.prefix "@" name = true ->
  (exists e, (unmangleSectionName name).2 = Some e)
  \/ (exists T i count,
        unmangleSectionName name = (T, i, None)
        /\ Config_count h c T = Ok count
        /\ (i >= count \/ i < - count)) ->
  (exists e, Config_getUnnamed h c name = Ok (None, Some e))
  /\ Config_Get h c name = Ok None.
Proof.
  intros Hat Hcase.
  assert (exists e, Config_getUnnamed h c name = Ok (None, Some e)) as [e He].
  { unfold Config_getUnnamed. destruct Hcase as [[e He] | (T & i & count & Hp & Hc & Hi)].
    - destruct (unmangleSectionName name) as [[T i] err]. simpl in He. subst err.
      by exists e.
    - rewrite Hp, Hc. cbn [rbind]. exists ErrUnnamedIndexOutOfBounds.
      destruct (Z.ltb_spec i (- count)); [done |].
      destruct (Z.leb_spec count i); [done | lia]. }
  split; [by exists e |].
  unfold Config_Get. by rewrite Hat, He.
Qed.

Lemma Get_discards_error_witness :
  Config_Get ex_heap ex_config "@foo[x]" = Ok None
  /\ Config_Get ex_heap ex_config "@foo[3]" = Ok None.
Proof.
  split.
  - apply (Get_discards_error ex_heap ex_config "@foo[x]" eq_refl).
    left. exists (ErrIndexNotNumeric ErrSyntax). reflexivity.
  - apply (Get_discards_error ex_heap ex_config "@foo[3]" eq_refl).
    right. exists "foo", 3, 3. repeat split; [left; vm_compute; congruence].
Defined.

(** * Placeholder names *)

Section placeholder.
Implicit Types (s r T name ds : string) (c : ascii) (i j bra ket b : nat).

Lemma match_digits_ket_spec s seen :
  match_digits_ket s seen = true
  <-> exists ds, all_digits ds = true
                 /\ (seen = true \/ ds <> "")
                 /\ s = ds +:+ "]".
Proof.
  revert seen. induction s as [|c s IH]; intros seen; cbn [match_digits_ket].
  - split; [done |]. intros (ds & _ & _ & Hs). by destruct ds.
  - destruct (is_digit c) eqn:Hc.
    + rewrite IH. split.
      * intros (ds & Hds & _ & ->). exists (String c ds). simpl.
        rewrite Hc, Hds. auto.
      * intros (ds & Hds & Hne & Hs). destruct ds as [|c' ds].
        { simpl in Hs. injection Hs as -> _. done. }
        simpl in Hs, Hds. injection Hs as <- ->.
        apply andb_true_iff in Hds as [_ Hds]. exists ds. auto.
    + rewrite !andb_true_iff, bool_decide_eq_true, Ascii.eqb_eq. split.
      * intros [[-> ->] ->]. exists "". auto.
      * intros (ds & Hds & Hne & Hs). destruct ds as [|c' ds].
        { simpl in Hs. injection Hs as -> ->. by destruct Hne as [-> | ?]. }
        simpl in Hs, Hds. injection Hs as <- ->. by rewrite Hc in Hds.
Qed.

(** The language of [IsPlaceholderName]: "@", the type, "[", one or more
    digits, "]". *)
Lemma IsPlaceholderName_spec name T :
  IsPlaceholderName name T = true
  <-> exists ds, all_digits ds = true /\ ds <> ""
                 /\ name = "@" +:+ T +:+ "[" +:+ ds +:+ "]".
Proof.
  unfold IsPlaceholderName. split.
  - destruct name as [|c rest]; [done |].
    destruct (Ascii.eqb_spec c "@") as [-> |]; [| done].
    destruct (strip_prefix T rest) as [[|b ds']|] eqn:Hstrip; [done | | done].
    rewrite andb_true_iff, Ascii.eqb_eq, match_digits_ket_spec.
    intros [-> (ds & Hds & [? | Hne] & ->)]; [done |].
    exists ds. by rewrite (strip_prefix_app _ _ _ Hstrip).
  - intros (ds & Hds & Hne & ->).
    change ("@" +:+ T +:+ "[" +:+ ds +:+ "]")
      with (String "@" (T +:+ String "[" (ds +:+ "]"))).
    change (Ascii.eqb "@" "@") with true. cbn match.
    rewrite strip_prefix_refl. change (Ascii.eqb "[" "[") with true.
    cbn [andb]. apply match_digits_ket_spec. eauto.
Qed.

Lemma regexp_literal_no_bra T j :
  regexp_literal T = true -> get j T <> Some "["%char.
Proof.
  revert j. induction T as [|c T IH]; intros j; cbn [regexp_literal]; [done |].
  rewrite !andb_true_iff, negb_true_iff. intros [[_ Hc] HT].
  destruct j as [|j]; simpl; [| by apply IH].
  intros [= ->]. done.
Qed.

Lemma app_bra_inj T T' s s' :
  regexp_literal T = true -> regexp_literal T' = true ->
  T +:+ String "[" s = T' +:+ String "[" s' -> T = T'.
Proof.
  revert T'. induction T as [|c T IH]; intros [|c' T'] HT HT'; simpl.
  - done.
  - intros [= <- _]. by pose proof (regexp_literal_no_bra _ 0 HT').
  - intros [= -> _]. by pose proof (regexp_literal_no_bra _ 0 HT).
  - intros [= -> Heq]. f_equal.
    cbn [regexp_literal] in HT, HT'.
    apply andb_true_iff in HT as [_ HT], HT' as [_ HT']. eauto.
Qed.

(** A name is a placeholder of at most one literal type. *)
Lemma IsPlaceholderName_inj name T T' :
  regexp_literal T = true -> regexp_literal T' = true ->
  IsPlaceholderName name T = true -> IsPlaceholderName name T' = true ->
  T = T'.
Proof.
  intros HT HT'. rewrite !IsPlaceholderName_spec.
  intros (ds & _ & _ & ->) (ds' & _ & _ & Heq).
  simpl in Heq. injection Heq as Heq. eauto using app_bra_inj.
Qed.
End placeholder.

Section selector_shape.
Implicit Types (s r T name : string) (c : ascii) (i j bra ket b : nat).



End selector_shape.

(** * Deletion *)

Section del.
Implicit Types (h : Heap) (c : Config) (secs : list addr) (p : addr)
  (T name : string) (sec : SectionT) (indexs : gmap string Z) (i k : nat).

Lemma nth_of_type_lt h secs T n k :
  nth_of_type h secs T n = Some k -> (k < length secs)%nat.
Proof.
  revert n k. induction secs as [|p secs IH]; intros n k; cbn [nth_of_type]; [done |].
  destruct (decide _); [destruct n as [|n] |].
  - intros [= <-]. simpl. lia.
  - destruct (nth_of_type h secs T n) as [k' |] eqn:E; [| done].
    intros [= <-]. apply IH in E. simpl. lia.
  - destruct (nth_of_type h secs T n) as [k' |] eqn:E; [| done].
    intros [= <-]. apply IH in E. simpl. lia.
Qed.

Lemma nth_of_type_lookup h secs T n k :
  nth_of_type h secs T n = Some k ->
  secs !! k = filter (has_type h T) secs !! n.
Proof.
  revert n k. induction secs as [|p secs IH]; intros n k; cbn [nth_of_type]; [done |].
  rewrite filter_cons. destruct (decide _); [destruct n as [|n] |].
  - by intros [= <-].
  - destruct (nth_of_type h secs T n) as [k' |] eqn:E; [| done].
    intros [= <-]. simpl. eauto.
  - destruct (nth_of_type h secs T n) as [k' |] eqn:E; [| done].
    intros [= <-]. simpl. eauto.
Qed.

Lemma nth_of_type_is_Some h secs T n :
  (n < length (filter (has_type h T) secs))%nat ->
  is_Some (nth_of_type h secs T n).
Proof.
  revert n. induction secs as [|p secs IH]; intros n; cbn [nth_of_type].
  - simpl. lia.
  - rewrite filter_cons. destruct (decide _); [destruct n as [|n] |].
    + eauto.
    + cbn [length]. intros Hn. destruct (IH n) as [k ->]; [lia | by eexists].
    + intros Hn. destruct (IH n) as [k ->]; [lia | by eexists].
Qed.


(** [Config.Del] with the placeholder name of type [T] and index [idx],
    [m] sections of type [T] having been passed: the loop stops at the
    section of type [T] number [idx - m] from here, unless a section
    before it bears the name. *)
Lemma Del_loop_positional h secs name T idx t0 e0 indexs i m k :
  Forall (fun p => is_Some (sections h !! p)) secs ->
  Forall (fun p => forall sec, sections h !! p = Some sec ->
                               regexp_literal (secType sec) = true) secs ->
  regexp_literal T = true ->
  IsPlaceholderName name T = true ->
  unmangleSectionName name = (t0, idx, e0) ->
  0 <= m <= idx ->
  default 0 (indexs !! T) = m ->
  nth_of_type h secs T (Z.to_nat (idx - m)) = Some k ->
  (forall j p, (j < k)%nat -> secs !! j = Some p -> ~ has_name h name p) ->
  Del_loop h secs name indexs i = Ok (i + k)%nat.
Proof.
  intros Hwf Hlit HT Hph Hparse. revert indexs i m k.
  induction Hwf as [|p secs [sec Hp] _ IH]; intros indexs i m k Hm Hidx Hnth Hfree;
    cbn [Del_loop nth_of_type] in *; [done |].
  apply Forall_cons in Hlit as [Hlit1 Hlit].
  rewrite (getSection_Some _ _ _ Hp). cbn [rbind].
  pose proof (has_type_lookup h T p sec Hp) as Hty.
  pose proof (has_name_lookup h name p sec Hp) as Hnm.
  destruct (decide (has_type h T p)) as [Hy | Hn].
  - assert (secType sec = T) as HsecT by tauto. rewrite HsecT.
    rewrite Hph, Hparse.
    set (indexs1 := match indexs !! T with
                    | Some _ => indexs
                    | None => <[T := 0]> indexs
                    end).
    assert (default 0 (indexs1 !! T) = m) as ->.
    { unfold indexs1. destruct (indexs !! T) as [v |] eqn:E.
      - by rewrite E.
      - by rewrite lookup_insert_eq. }
    destruct (Z.eqb_spec idx m) as [-> | Hne].
    + rewrite Z.sub_diag in Hnth. injection Hnth as <-. f_equal. lia.
    + replace (Z.to_nat (idx - m)) with (S (Z.to_nat (idx - (m + 1)))) in Hnth by lia.
      destruct (nth_of_type h secs T _) as [k' |] eqn:E; [| done].
      injection Hnth as <-.
      rewrite bool_decide_eq_false_2
        by (intros Heq; apply (Hfree 0%nat p); [lia | done | tauto]).
      rewrite (IH Hlit _ _ (m + 1) k'); [f_equal; lia | lia | | done |].
      * by rewrite lookup_insert_eq.
      * intros j q Hj Hq. apply (Hfree (S j) q); [lia | done].
  - destruct (IsPlaceholderName name (secType sec)) eqn:Hph'.
    { exfalso. apply Hn, Hty. eapply IsPlaceholderName_inj; eauto. }
    destruct (nth_of_type h secs T _) as [k' |] eqn:E; [| done].
    injection Hnth as <-.
    rewrite bool_decide_eq_false_2
      by (intros Heq; apply (Hfree 0%nat p); [lia | done | tauto]).
    rewrite (IH Hlit _ _ m k'); [f_equal; lia | lia | done | done |].
    intros j q Hj Hq. apply (Hfree (S j) q); [lia | done].
Qed.

Lemma Config_Del_at h c name k :
  Del_loop h (cfgSections c) name ∅ 0 = Ok k ->
  (k < length (cfgSections c))%nat ->
  Config_Del h c name = Ok (without c k).
Proof.
  intros Hloop Hk. unfold Config_Del, without. rewrite Hloop. cbn [rbind].
  destruct (Nat.ltb_spec k (length (cfgSections c))); [| lia].
  by rewrite delete_take_drop.
Qed.
End del.

(** * Deletion: the statements *)

Lemma ex_literal : literal_types ex_heap ex_config.
Proof.
  unfold literal_types. repeat constructor; intros sec Hsec;
    vm_compute in Hsec; by injection Hsec as <-.
Qed.




(** C8, as the code has it.  Let [T] be a selector type without regexp
    metacharacter and [k] the position of the second section of type [T].
    If no section before position [k] bears the name "@T[1]" itself,
    [Config.Del] with "@T[1]" removes the section at position [k], the
    second declared of type [T], and keeps all others in their order. *)
Theorem Del_second_of_type (h : Heap) (c : Config) (T : string) (k : nat) :
  wf_config h c ->
  literal_types h c ->
  selector_type T = true ->
  regexp_literal T = true ->
  nth_of_type h (cfgSections c) T 1 = Some k ->
  (forall j p, (j < k)%nat -> cfgSections c !! j = Some p ->
               ~ has_name h ("@" +:+ T +:+ "[1]") p) ->
  cfgSections c !! k = sections_of_type h c T !! 1%nat
  /\ Config_Del h c ("@" +:+ T +:+ "[1]") = Ok (without c k).
Proof.
  intros Hwf Hlit HT HTlit Hnth Hfree. split.
  { by apply nth_of_type_lookup. }
  apply Config_Del_at; [| by eapply nth_of_type_lt].
  change ("@" +:+ T +:+ "[1]") with ("@" +:+ T +:+ "[" +:+ "1" +:+ "]") in *.
  rewrite <- (Nat.add_0_l k).
  eapply (Del_loop_positional h _ _ T 1 _ _ ∅ 0 0 k); try done.
  - apply IsPlaceholderName_spec. by exists "1".
  - by apply unmangle_selector.
Qed.

Lemma Del_second_of_type_witness :
  Config_Del ex_heap ex_config "@foo[1]" = Ok (mkConfig "unnamed" [1; 3]%nat false).
Proof.
  refine (proj2 (Del_second_of_type ex_heap ex_config "foo" 1
                   ex_wf ex_literal eq_refl eq_refl eq_refl _)).
  intros j p Hj Hp. assert (j = 0%nat) as -> by lia.
  injection Hp as <-. vm_compute. congruence.
Defined.

(** C8 fails as stated: of two sections of type [a], the first of which
    bears the name "@a[1]", [Del] with "@a[1]" removes the first. *)
Lemma Del_second_counterexample :
  sections_of_type stale_heap stale_config "a" = [1; 2]%nat
  /\ Config_Del stale_heap stale_config "@a[1]"
     = Ok (mkConfig "stale" [2]%nat false).
Proof. vm_compute. done. Qed.

(** * Serialization *)

Section writeto.
Implicit Types (h : Heap) (c : Config) (buf s r t : string) (ls : list string).




End writeto.



(** * Merging values *)

Section merge_values.
Implicit Types (h : Heap) (o : addr) (opt : OptionT) (v : string)
  (vs : list string) (have : gset string).

Lemma setOption_setOption h o opt opt' :
  setOption (setOption h o opt) o opt' = setOption h o opt'.
Proof. unfold setOption. simpl. by rewrite insert_insert_eq. Qed.

Lemma setOption_id h o opt : options h !! o = Some opt -> setOption h o opt = h.
Proof. intros Ho. destruct h. unfold setOption. simpl in *. by rewrite insert_id. Qed.

Lemma MergeValues_loop_spec h o opt have vs :
  options h !! o = Some opt ->
  MergeValues_loop h o have vs
  = Ok (setOption h o
          (mkOption (optName opt)
             (optValues opt ++ filter (fun v => v ∉ have) vs)
             (optType opt))).
Proof.
  revert h opt. induction vs as [|v vs IH]; intros h opt Ho; cbn [MergeValues_loop].
  - rewrite filter_nil, app_nil_r. destruct opt. by rewrite setOption_id.
  - rewrite filter_cons. case_bool_decide as Hv.
    + rewrite decide_False by tauto. by apply IH.
    + rewrite decide_True by done.
      unfold Option_AddValue, getOption. rewrite Ho. cbn [rbind].
      erewrite IH by (unfold setOption; simpl; apply lookup_insert_eq).
      rewrite setOption_setOption. simpl. by rewrite <- app_assoc.
Qed.

(** [MergeValues] keeps the values of the option and appends, in their
    order, the given values that the option did not hold before the
    call. *)
Lemma MergeValues_spec h o opt vs :
  options h !! o = Some opt ->
  Option_MergeValues h o vs
  = Ok (setOption h o
          (mkOption (optName opt)
             (optValues opt ++ filter (fun v => v ∉ optValues opt) vs)
             (optType opt))).
Proof.
  intros Ho. unfold Option_MergeValues, getOption. rewrite Ho. cbn [rbind].
  rewrite (MergeValues_loop_spec _ _ opt) by done.
  rewrite (list_filter_iff (fun v => v ∉ list_to_set (C:=gset string) (optValues opt))
             (fun v => v ∉ optValues opt)); [done |].
  intros v. by rewrite elem_of_list_to_set.
Qed.

Lemma filter_none {A} (P : A -> Prop) `{!forall x, Decision (P x)} (l : list A) :
  (forall x, x ∈ l -> ~ P x) -> filter P l = [].
Proof.
  induction l as [|x l IH]; intros Hl; [done |].
  rewrite filter_cons, decide_False by (apply Hl; constructor).
  apply IH. intros y Hy. apply Hl. by constructor.
Qed.

(** Merging the same values once more changes nothing. *)
Lemma MergeValues_idempotent h h1 o vs :
  is_Some (options h !! o) ->
  Option_MergeValues h o vs = Ok h1 ->
  Option_MergeValues h1 o vs = Ok h1.
Proof.
  intros [opt Ho]. rewrite (MergeValues_spec _ _ opt) by done. intros [= <-].
  erewrite MergeValues_spec by (unfold setOption; simpl; apply lookup_insert_eq).
  rewrite setOption_setOption. simpl.
  set (merged := optValues opt ++ filter _ vs).
  rewrite (filter_none (fun v => v ∉ merged)); [by rewrite app_nil_r |].
  intros v Hv Hnot. apply Hnot. apply elem_of_app.
  destruct (decide (v ∈ optValues opt)); [by left | right].
  by apply list_elem_of_filter.
Qed.

(** The values stay free of duplicates when the given values are. *)
Lemma MergeValues_NoDup h h1 o opt vs :
  options h !! o = Some opt ->
  NoDup (optValues opt) -> NoDup vs ->
  Option_MergeValues h o vs = Ok h1 ->
  exists opt1, options h1 !! o = Some opt1 /\ NoDup (optValues opt1).
Proof.
  intros Ho Hold Hvs. rewrite (MergeValues_spec _ _ opt) by done. intros [= <-].
  eexists. split; [unfold setOption; simpl; apply lookup_insert_eq |].
  simpl. apply NoDup_app. split; [done |]. split; [| by apply NoDup_filter].
  intros v Hv [Hn _]%list_elem_of_filter. done.
Qed.
End merge_values.

(** C4, at a failing input.  The option holds ["22"]; merging ["80"; "80"]
    appends both: the set [have] is filled before the loop and never
    after, so a value that comes twice is added twice. *)
Theorem MergeValues_repeated_value :
  exists h1,
    Option_MergeValues list_heap 1 ["80"; "80"] = Ok h1
    /\ optValues <$> options h1 !! 1%nat = Some ["22"; "80"; "80"]
    /\ ~ NoDup ["22"; "80"; "80"].
Proof.
  eexists. split; [vm_compute; reflexivity |]. split; [vm_compute; reflexivity |].
  intros Hnd. apply NoDup_cons in Hnd as [_ Hnd].
  apply NoDup_cons in Hnd as [Hnot _]. apply Hnot. constructor.
Qed.

(** * Merging sections *)

Section merge.
Implicit Types (h : Heap) (c : Config) (secs : list addr) (p s : addr)
  (sec : SectionT) (i : Z).

Lemma index_loop_member h secs p i :
  Forall (fun q => is_Some (sections h !! q)) secs -> p ∈ secs ->
  exists i', index_loop h secs p i = Ok i'.
Proof.
  intros Hwf Hp.
  assert (is_Some (sections h !! p)) as [sp Hsp].
  { rewrite Forall_forall in Hwf. auto. }
  revert i. induction Hwf as [|q secs [sq Hq] _ IH]; intros i; [by inversion Hp |].
  cbn [index_loop]. case_bool_decide as Hqp; [eauto |].
  rewrite (getSection_Some _ _ _ Hq), (getSection_Some _ _ _ Hsp). cbn [rbind].
  assert (p ∈ secs) by (inversion Hp; congruence).
  destruct (bool_decide _); eauto.
Qed.

(** The assertion of [Config.index] is reached when the section is not
    one of the configuration. *)
Lemma index_loop_absent h secs s i :
  Forall (fun q => is_Some (sections h !! q)) secs ->
  is_Some (sections h !! s) -> s ∉ secs ->
  index_loop h secs s i = Panic "not reached".
Proof.
  intros Hwf [ss Hs]. revert i.
  induction Hwf as [|q secs [sq Hq] _ IH]; intros i Hnot; [done |].
  cbn [index_loop]. apply not_elem_of_cons in Hnot as [Hne Hnot].
  rewrite bool_decide_eq_false_2 by congruence.
  rewrite (getSection_Some _ _ _ Hq), (getSection_Some _ _ _ Hs). cbn [rbind].
  destruct (bool_decide _); eauto.
Qed.

Lemma sectionName_member h c p :
  wf_config h c -> p ∈ cfgSections c ->
  exists key, Config_sectionName h c p = Ok key.
Proof.
  intros Hwf Hp. unfold Config_sectionName.
  assert (is_Some (sections h !! p)) as [sp Hsp].
  { unfold wf_config in Hwf. rewrite Forall_forall in Hwf. auto. }
  rewrite (getSection_Some _ _ _ Hsp). cbn [rbind].
  destruct (bool_decide _); [eauto |].
  destruct (index_loop_member h (cfgSections c) p 0 Hwf Hp) as [i Hi].
  unfold Config_index. rewrite Hi. cbn [rbind]. eauto.
Qed.

(** Merging an unnamed section that is not one of a non-empty
    configuration panics. *)
Lemma Config_Merge_unnamed_not_reached h c s sec :
  wf_config h c -> cfgSections c <> [] ->
  sections h !! s = Some sec -> secName sec = "" -> s ∉ cfgSections c ->
  Config_Merge h c s = Panic "not reached".
Proof.
  intros Hwf Hne Hs Hname Hnot. unfold Config_Merge.
  destruct (cfgSections c) as [|p secs] eqn:Hsecs; [done |].
  cbn [Merge_find]. unfold Config_sectionName at 1.
  rewrite (getSection_Some _ _ _ Hs). cbn [rbind].
  rewrite bool_decide_eq_false_2 by tauto.
  unfold Config_index. rewrite Hsecs, index_loop_absent; [done | | by eexists | done].
  unfold wf_config in Hwf. by rewrite Hsecs in Hwf.
Qed.

(** The first loop of [Config.Merge], for a named section. *)
Lemma Merge_find_named h c secs s sec :
  wf_config h c -> (forall p, p ∈ secs -> p ∈ cfgSections c) ->
  sections h !! s = Some sec -> secName sec <> "" ->
  Merge_find h c secs s = Ok (find (has_key h c (secName sec)) secs).
Proof.
  intros Hwf Hsub Hs Hname.
  assert (Config_sectionName h c s = Ok (secName sec)) as Hkey.
  { unfold Config_sectionName. rewrite (getSection_Some _ _ _ Hs). cbn [rbind].
    by rewrite bool_decide_eq_true_2. }
  induction secs as [|p secs IH]; [done |].
  cbn [Merge_find find]. rewrite Hkey. cbn [rbind]. unfold has_key at 1.
  destruct (sectionName_member h c p Hwf) as [key ->]; [apply Hsub; constructor |].
  cbn [rbind]. destruct (decide (secName sec = key)) as [<- | Hne].
  - by rewrite !bool_decide_eq_true_2.
  - rewrite !bool_decide_eq_false_2 by congruence.
    apply IH. intros q Hq. apply Hsub. by constructor.
Qed.

(** [Config.Merge] of a named section: when a section of the
    configuration has the same identity key, the options are merged into
    the first such section, which is returned, and the list of sections
    is the same; otherwise the section is appended and returned. *)
Lemma Config_Merge_named h c s sec :
  wf_config h c -> sections h !! s = Some sec -> secName sec <> "" ->
  match find (has_key h c (secName sec)) (cfgSections c) with
  | Some found =>
      Config_Merge h c s
      = (do h' <- Merge_options h found (secOptions sec); Ok (h', c, found))
  | None =>
      Config_Merge h c s = Ok (h, Config_Add c s, s)
      /\ length (cfgSections (Config_Add c s)) = S (length (cfgSections c))
  end.
Proof.
  intros Hwf Hs Hname. unfold Config_Merge.
  rewrite (Merge_find_named h c _ s sec) by done. cbn [rbind].
  destruct (find _ _) as [found |].
  - by rewrite (getSection_Some _ _ _ Hs).
  - split; [done |]. unfold Config_Add. simpl. rewrite length_app. simpl. lia.
Qed.
End merge.

(** C2, at a failing input.  The configuration holds the section "lan";
    the incoming section is unnamed and was built on its own, so no
    section has its identity key.  [Config.Merge] neither merges nor
    appends it: [sectionName] asks [index] for the position of the
    incoming section among the sections of the configuration, where it is
    not, and [index] panics. *)
Theorem Merge_unnamed_overlay :
  cfgSections overlay_config = [1%nat]
  /\ Config_sectionName overlay_heap overlay_config 1 = Ok "lan"
  /\ sections overlay_heap !! 2%nat = Some (mkSection "" "interface" [11%nat])
  /\ Config_Merge overlay_heap overlay_config 2 = Panic "not reached".
Proof. vm_compute. done. Qed.

(** C5, at a failing input.  With the three sections of type [foo],
    [Config.Merge] of a fourth, unnamed, section of type [foo] does not
    return: it reaches the "not reached" of [Config.index]. *)
Theorem Merge_reaches_not_reached :
  Config_Merge (setSection ex_heap 4 (mkSection "" "foo" [])) ex_config 4
  = Panic "not reached".
Proof. vm_compute. done. Qed.

(** * Operations that always return *)

Section total.
Implicit Types (h : Heap) (c : Config) (secs opts : list addr) (p s o : addr)
  (name : string).

Lemma Del_loop_total h secs name (indexs : gmap string Z) (i : nat) :
  Forall (fun q => is_Some (sections h !! q)) secs ->
  exists k, Del_loop h secs name indexs i = Ok k.
Proof.
  intros Hwf. revert indexs i.
  induction Hwf as [|q secs [sq Hq] _ IH]; intros indexs i; cbn [Del_loop]; [eauto |].
  rewrite (getSection_Some _ _ _ Hq). cbn [rbind].
  destruct (IsPlaceholderName _ _).
  - destruct (unmangleSectionName name) as [[t index] e].
    destruct (_ =? _); [eauto |]. destruct (bool_decide _); eauto.
  - destruct (bool_decide _); eauto.
Qed.

(** [Config.Del] returns, whatever the name. *)
Lemma Config_Del_total h c name :
  wf_config h c -> literal_types h c ->
  exists c', Config_Del h c name = Ok c'.
Proof.
  intros Hwf _. unfold Config_Del.
  destruct (Del_loop_total h (cfgSections c) name ∅ 0 Hwf) as [k ->].
  cbn [rbind]. destruct (_ <? _)%nat; eauto.
Qed.

Lemma Section_Del_loop_total h opts name (i : nat) :
  Forall (fun q => is_Some (options h !! q)) opts ->
  exists k, Section_Del_loop h opts name i = Ok k.
Proof.
  intros Hwf. revert i.
  induction Hwf as [|q opts [oq Hq] _ IH]; intros i; cbn [Section_Del_loop]; [eauto |].
  unfold getOption. rewrite Hq. cbn [rbind]. destruct (bool_decide _); eauto.
Qed.

(** [Section.Del] returns, whatever the name. *)
Lemma Section_Del_total h s sec name :
  sections h !! s = Some sec ->
  Forall (fun q => is_Some (options h !! q)) (secOptions sec) ->
  exists h' found, Section_Del h s name = Ok (h', found).
Proof.
  intros Hs Hopts. unfold Section_Del.
  rewrite (getSection_Some _ _ _ Hs). cbn [rbind].
  destruct (Section_Del_loop_total h (secOptions sec) name 0 Hopts) as [k ->].
  cbn [rbind]. destruct (_ =? _)%nat; eauto.
Qed.

Lemma Section_Merge_loop_total h opts o :
  Forall (fun q => is_Some (options h !! q)) opts ->
  is_Some (options h !! o) ->
  exists r, Section_Merge_loop h opts o = Ok r.
Proof.
  intros Hwf [oo Ho].
  induction Hwf as [|q opts [oq Hq] _ IH]; cbn [Section_Merge_loop]; [eauto |].
  unfold getOption. rewrite Hq, Ho. cbn [rbind].
  destruct (bool_decide _); [| done].
  rewrite (MergeValues_spec _ _ oq) by done. cbn [rbind]. eauto.
Qed.

(** [Section.Merge] returns, whatever the option. *)
Lemma Section_Merge_total h s sec o :
  sections h !! s = Some sec ->
  Forall (fun q => is_Some (options h !! q)) (secOptions sec) ->
  is_Some (options h !! o) ->
  exists h', Section_Merge h s o = Ok h'.
Proof.
  intros Hs Hopts Ho. unfold Section_Merge.
  rewrite (getSection_Some _ _ _ Hs). cbn [rbind].
  destruct (Section_Merge_loop_total h (secOptions sec) o Hopts Ho) as [[h' |] ->];
    cbn [rbind]; eauto.
Qed.
End total.

(** * The selector parser: the statements *)

Lemma unmangle_scan_errors (name : string) (i bra ket : nat) (e : error) :
  unmangle_scan name i bra ket = inl e ->
  e = ErrMultipleAtSigns \/ e = ErrMultipleOpenBrackets
  \/ e = ErrMultipleCloseBrackets.
Proof.
  revert i bra. induction name as [|c name IH]; intros i bra; cbn [unmangle_scan]; [done |].
  destruct (_ && Ascii.eqb c "@"); [intros [= <-]; auto |].
  destruct (Ascii.eqb c "[" && _); [intros [= <-]; auto |].
  destruct (Ascii.eqb c "]" && _); [intros [= <-]; auto |].
  destruct (Ascii.eqb c "["); apply IH.
Qed.

(** The parser is total: it returns a type and an index, or one of its six
    syntax errors with the zero results, or the failure of
    [strconv.Atoi] on the index. *)
Lemma unmangle_outcomes (name : string) :
  (exists T i, unmangleSectionName name = (T, i, None))
  \/ (exists e, unmangleSectionName name = ("", 0, Some e)
                /\ (e = ErrImplausibleSectionSelector \/ e = ErrMustStartWithAt
                    \/ e = ErrMultipleAtSigns \/ e = ErrMultipleOpenBrackets
                    \/ e = ErrMultipleCloseBrackets
                    \/ e = ErrInvalidSectionSelector))
  \/ (exists T i cause,
        unmangleSectionName name = (T, i, Some (ErrIndexNotNumeric cause))).
Proof.
  unfold unmangleSectionName.
  destruct (_ <? 5)%nat; [right; left; eexists; split; [done | auto] |].
  destruct (negb _); [right; left; eexists; split; [done | auto] |].
  destruct (unmangle_scan _ _ _ _) as [e | bra] eqn:Hscan.
  { right; left. exists e. split; [done |].
    apply unmangle_scan_errors in Hscan. tauto. }
  destruct (_ || _); [right; left; eexists; split; [done | tauto] |].
  destruct (Atoi _) as [index [cause |]]; [right; right | left]; eauto.
Qed.

(** The inputs that the package's test and the specification give for the
    syntax errors, and the selectors of the test. *)
Lemma unmangle_examples :
  unmangleSectionName "" = ("", 0, Some ErrImplausibleSectionSelector)
  /\ unmangleSectionName "aa[0]" = ("", 0, Some ErrMustStartWithAt)
  /\ unmangleSectionName "@@[0]" = ("", 0, Some ErrMultipleAtSigns)
  /\ unmangleSectionName "@[[0]" = ("", 0, Some ErrMultipleOpenBrackets)
  /\ unmangleSectionName "@][0]" = ("", 0, Some ErrMultipleCloseBrackets)
  /\ unmangleSectionName "@aa0]" = ("", 0, Some ErrInvalidSectionSelector)
  /\ unmangleSectionName "@a[b]" = ("a", 0, Some (ErrIndexNotNumeric ErrSyntax))
  /\ unmangleSectionName "@abcdEFGHijkl[0xff]"
     = ("abcdEFGHijkl", 0, Some (ErrIndexNotNumeric ErrSyntax))
  /\ unmangleSectionName "@a[4223]" = ("a", 4223, None)
  /\ unmangleSectionName "@abcdEFGHijkl[-255]" = ("abcdEFGHijkl", -255, None).
Proof. vm_compute. done. Qed.

(** C3, at failing inputs.  The parser takes the last byte for the closing
    bracket without looking at it, and takes an opening bracket at offset
    1 for a valid one: "@a[1x" is parsed as type [a], index 1, and "@[12]"
    as the empty type, index 12, though neither has the form
    "@" TYPE "[" INDEX "]" with a TYPE of one or more bytes. *)
Theorem unmangle_accepts_malformed :
  unmangleSectionName "@a[1x" = ("a", 1, None)
  /\ unmangleSectionName "@[12]" = ("", 12, None).
Proof. vm_compute. done. Qed.

(** * Further properties: selectors and placeholder names *)

Section placeholder_num.
Implicit Types (s r T D name : string) (c : ascii) (n : Z).

Lemma append_empty_l s : "" +:+ s = s.
Proof. reflexivity. Qed.

Lemma match_digits_ket_bra T r seen :
  match_digits_ket (T +:+ String "[" r) seen = false.
Proof.
  revert seen. induction T as [|c T IH]; intros seen.
  - rewrite append_empty_l. cbn [match_digits_ket]. change (is_digit "[") with false.
    change (Ascii.eqb "[" "]") with false. by rewrite andb_false_r.
  - rewrite append_cons. cbn [match_digits_ket]. destruct (is_digit c); [apply IH |].
    rewrite bool_decide_eq_false_2; [by rewrite andb_false_r |].
    by destruct T.
Qed.

Lemma digits_prefix_ket D : all_digits D = true -> digits_prefix (D +:+ "]") = D.
Proof.
  induction D as [|c D IH]; [done |]. rewrite append_cons. cbn [all_digits digits_prefix].
  rewrite andb_true_iff. intros [-> HD]. by rewrite IH.
Qed.

Lemma placeholder_digits_found T D :
  no_newline T = true -> all_digits D = true -> D <> "" ->
  placeholder_digits (T +:+ "[" +:+ D +:+ "]") = Some D.
Proof.
  intros HT HD Hne. induction T as [|c T IH].
  - change ("" +:+ "[" +:+ D +:+ "]") with (String "[" (D +:+ "]")).
    cbn [placeholder_digits]. change (Ascii.eqb "[" "[") with true.
    rewrite (proj2 (match_digits_ket_spec (D +:+ "]") false)) by eauto.
    cbn [andb]. by rewrite digits_prefix_ket.
  - rewrite append_cons. cbn [placeholder_digits no_newline] in *.
    apply andb_true_iff in HT as [Hc HT]. apply negb_true_iff in Hc.
    change ("[" +:+ D +:+ "]") with (String "[" (D +:+ "]")).
    rewrite match_digits_ket_bra, andb_false_r, Hc. auto.
Qed.

Lemma placeholder_digits_plain s : plain s = true -> placeholder_digits (s +:+ "]") = None.
Proof.
  induction s as [|c s IH]; [done |]. rewrite append_cons.
  cbn [plain placeholder_digits]. rewrite andb_true_iff.
  intros [(_ & Hbra & _)%plain_byte_inv Hs]. rewrite Hbra. cbn [andb].
  destruct (Ascii.eqb c "010"); auto.
Qed.

Lemma placeholder_digits_negative T s :
  plain s = true -> get 0 s = Some "-"%char ->
  placeholder_digits (T +:+ "[" +:+ s +:+ "]") = None.
Proof.
  intros Hs Hminus. induction T as [|c T IH].
  - change ("" +:+ "[" +:+ s +:+ "]") with (String "[" (s +:+ "]")).
    cbn [placeholder_digits]. destruct (get_0_inv _ _ Hminus) as [r ->].
    rewrite append_cons. cbn [match_digits_ket]. change (is_digit "-") with false.
    cbn [andb]. change (Ascii.eqb "[" "010") with false. cbn iota.
    rewrite <- append_cons. by apply placeholder_digits_plain.
  - rewrite append_cons. cbn [placeholder_digits].
    change ("[" +:+ s +:+ "]") with (String "[" (s +:+ "]")).
    rewrite match_digits_ket_bra, andb_false_r.
    destruct (Ascii.eqb c "010"); auto.
Qed.

Lemma ParseUint_loop_digits s n :
  all_digits s = true -> (ParseUint_loop s n).2 <> Some ErrSyntax.
Proof.
  revert n. induction s as [|c s IH]; intros n; cbn [all_digits ParseUint_loop]; [done |].
  rewrite andb_true_iff. intros [-> Hs].
  destruct (_ <=? n); [done |]. cbv zeta. destruct (_ || _); [done |]. by apply IH.
Qed.

(** On a string of digits [Atoi] returns a number of [0 .. MaxInt64],
    whether it fails or not. *)
Lemma Atoi_digits_range s :
  all_digits s = true -> s <> "" -> 0 <= (Atoi s).1 < 2 ^ 63.
Proof.
  intros Hd Hne. destruct (all_digits_cons s Hd Hne) as (c & r & -> & Hc).
  destruct (is_digit_not_sign c Hc) as [Hm Hp].
  unfold Atoi, ParseInt. rewrite Hm, Hp. cbn [orb negb andb]. unfold ParseUint.
  pose proof (ParseUint_loop_nonneg (String c r) 0 (Z.le_refl 0)) as Hnn.
  pose proof (ParseUint_loop_digits (String c r) 0 Hd) as Hsyn.
  destruct (ParseUint_loop (String c r) 0) as [un [[] |]]; cbn [fst snd] in *; try done.
  - destruct (Z.leb_spec (2 ^ 63) un); cbn [fst]; lia.
  - destruct (Z.leb_spec (2 ^ 63) un); cbn [fst]; lia.
Qed.

Lemma Itoa_nonneg_digits n : 0 <= n -> all_digits (Itoa n) = true.
Proof.
  intros Hn. unfold Itoa. destruct n as [|p|p]; [done | | lia].
  cbn [Z.to_int NilZero.string_of_int].
  rewrite string_of_uint_nonnil by apply Unsigned.to_uint_nonnil.
  apply string_of_uint_digits.
Qed.

Lemma Itoa_negative_minus n : n < 0 -> get 0 (Itoa n) = Some "-"%char.
Proof. intros Hn. unfold Itoa. destruct n as [|p|p]; [lia | lia | done]. Qed.
End placeholder_num.

(** X1.  [unmangleSectionName] returns a type and an index without error
    exactly for the strings of at least five bytes made of "@", the type
    (bytes other than '@', '[' and ']', possibly none), "[", an index
    without these bytes that [strconv.Atoi] parses, and one last byte
    that is neither '@' nor '['. *)
Theorem unmangle_accepted_language (name T : string) (idx : Z) :
  unmangleSectionName name = (T, idx, None)
  <-> exists s c,
        name = "@" +:+ T +:+ "[" +:+ s +:+ String c ""
        /\ plain T = true /\ plain s = true
        /\ c <> "@"%char /\ c <> "["%char
        /\ (5 <= String.length name)%nat
        /\ Atoi s = (idx, None).
Proof. apply unmangle_ok_iff. Qed.

(** X2.  The selector that [Num2PlaceholderSection] prints for a type of
    the selector grammar and an [int] is parsed back by
    [unmangleSectionName] to this type and this number. *)
Theorem unmangle_Num2PlaceholderSection_roundtrip (T : string) (n : Z) :
  selector_type T = true -> int_range n ->
  unmangleSectionName (Num2PlaceholderSection T n) = (T, n, None).
Proof. apply unmangle_Num2PlaceholderSection. Qed.

Lemma unmangle_Num2PlaceholderSection_roundtrip_witness :
  unmangleSectionName (Num2PlaceholderSection "interface" (-3))
  = ("interface", -3, None).
Proof.
  apply (unmangle_Num2PlaceholderSection_roundtrip "interface" (-3)).
  - reflexivity.
  - unfold int_range. lia.
Defined.

(** X3.  [PlaceholderSection2Num] gives back the number of the
    placeholder that [Num2PlaceholderSection] prints, for every type
    without line feed and every [int] that is not negative. *)
Theorem PlaceholderSection2Num_roundtrip (T : string) (n : Z) :
  no_newline T = true -> 0 <= n -> int_range n ->
  PlaceholderSection2Num (Num2PlaceholderSection T n) = (n, None).
Proof.
  intros HT Hn Hrange. unfold PlaceholderSection2Num, Num2PlaceholderSection.
  rewrite append_cons, append_empty_l. change (Ascii.eqb "@" "@") with true. cbn iota.
  rewrite placeholder_digits_found
    by auto using Itoa_nonneg_digits, Itoa_nonempty.
  by rewrite Atoi_Itoa.
Qed.

Lemma PlaceholderSection2Num_roundtrip_witness :
  PlaceholderSection2Num (Num2PlaceholderSection "perm_rule" 12) = (12, None).
Proof.
  apply (PlaceholderSection2Num_roundtrip "perm_rule" 12).
  - reflexivity.
  - lia.
  - unfold int_range. lia.
Defined.

(** X4.  For a negative number the placeholder that
    [Num2PlaceholderSection] prints is refused by
    [PlaceholderSection2Num], whatever the type. *)
Theorem PlaceholderSection2Num_negative (T : string) (n : Z) :
  n < 0 ->
  PlaceholderSection2Num (Num2PlaceholderSection T n)
  = (0, Some ErrPlaceholderFormat).
Proof.
  intros Hn. unfold PlaceholderSection2Num, Num2PlaceholderSection.
  rewrite append_cons, append_empty_l. change (Ascii.eqb "@" "@") with true. cbn iota.
  by rewrite placeholder_digits_negative
    by auto using Itoa_plain, Itoa_negative_minus.
Qed.

Lemma PlaceholderSection2Num_negative_witness :
  PlaceholderSection2Num (Num2PlaceholderSection "foo" (-1))
  = (0, Some ErrPlaceholderFormat).
Proof. apply (PlaceholderSection2Num_negative "foo" (-1)). lia. Defined.

(** X5.  A name that [IsPlaceholderName] recognises for a type without
    regexp metacharacter and without line feed is accepted by
    [PlaceholderSection2Num], which returns a number of [0 .. MaxInt64]
    and no error. *)
Theorem IsPlaceholderName_PlaceholderSection2Num (name T : string) :
  regexp_literal T = true -> no_newline T = true ->
  IsPlaceholderName name T = true ->
  exists n, 0 <= n < 2 ^ 63 /\ PlaceholderSection2Num name = (n, None).
Proof.
  intros _ HT (ds & Hds & Hne & ->)%IsPlaceholderName_spec.
  exists (Atoi ds).1. split; [by apply Atoi_digits_range |].
  unfold PlaceholderSection2Num. rewrite append_cons, append_empty_l.
  change (Ascii.eqb "@" "@") with true. cbn iota.
  by rewrite placeholder_digits_found.
Qed.

Lemma IsPlaceholderName_PlaceholderSection2Num_witness :
  exists n, 0 <= n < 2 ^ 63 /\ PlaceholderSection2Num "@foo[007]" = (n, None).
Proof.
  apply (IsPlaceholderName_PlaceholderSection2Num "@foo[007]" "foo"); reflexivity.
Defined.



(** X7.  For a type without regexp metacharacter, [IsPlaceholderName]
    recognises the placeholder that [Num2PlaceholderSection] prints for
    this type exactly when the number is not negative. *)
Theorem IsPlaceholderName_Num2PlaceholderSection (T : string) (n : Z) :
  regexp_literal T = true ->
  IsPlaceholderName (Num2PlaceholderSection T n) T = bool_decide (0 <= n).
Proof.
  intros _. case_bool_decide as Hn.
  - apply IsPlaceholderName_spec. exists (Itoa n).
    auto using Itoa_nonneg_digits, Itoa_nonempty.
  - apply not_true_is_false. intros (ds & Hds & Hne & Heq)%IsPlaceholderName_spec.
    unfold Num2PlaceholderSection in Heq.
    apply String.app_inj, String.app_inj in Heq.
    rewrite !append_cons, !append_empty_l in Heq. injection Heq as Heq.
    assert (get 0 (Itoa n +:+ "]") = get 0 (ds +:+ "]")) as Hget by by rewrite Heq.
    destruct (get_0_inv _ _ (Itoa_negative_minus n ltac:(lia))) as [r Hr].
    rewrite Hr in Hget. destruct (all_digits_cons ds Hds Hne) as (c & r' & -> & Hc).
    rewrite !append_cons in Hget. simpl in Hget. injection Hget as <-. done.
Qed.

Lemma IsPlaceholderName_Num2PlaceholderSection_witness :
  IsPlaceholderName (Num2PlaceholderSection "foo" 2) "foo" = true
  /\ IsPlaceholderName (Num2PlaceholderSection "foo" (-1)) "foo" = false.
Proof.
  split.
  - apply (IsPlaceholderName_Num2PlaceholderSection "foo" 2). reflexivity.
  - apply (IsPlaceholderName_Num2PlaceholderSection "foo" (-1)). reflexivity.
Defined.

(** * Further properties: looking sections up *)

Section more_lookup.
Implicit Types (h : Heap) (c : Config) (secs : list addr) (p q s : addr)
  (T name : string) (sec : SectionT).

Lemma getNamed_loop_spec h secs name :
  Forall (fun p => is_Some (sections h !! p)) secs ->
  getNamed_loop h secs name = Ok (head (filter (has_name h name) secs)).
Proof.
  induction 1 as [|p secs [sec Hp] _ IH]; cbn [getNamed_loop]; [done |].
  rewrite (getSection_Some _ _ _ Hp). cbn [rbind]. rewrite filter_cons.
  pose proof (has_name_lookup h name p sec Hp) as Hnm.
  destruct (decide (has_name h name p)).
  - by rewrite bool_decide_eq_true_2 by tauto.
  - by rewrite bool_decide_eq_false_2 by tauto.
Qed.

Lemma Config_Get_plain h c name :
  wf_config h c -> String.prefix "@" name = false ->
  Config_Get h c name = Ok (head (filter (has_name h name) (cfgSections c))).
Proof.
  intros Hwf Hat. unfold Config_Get, Config_getNamed. rewrite Hat.
  by apply getNamed_loop_spec.
Qed.

Lemma wf_config_Add h c s :
  wf_config h c -> is_Some (sections h !! s) -> wf_config h (Config_Add c s).
Proof.
  intros Hwf Hs. unfold wf_config, Config_Add. cbn [cfgSections].
  apply Forall_app. split; [done |]. by constructor.
Qed.

Lemma head_app_keep {A} (l l' : list A) x : head l = Some x -> head (l ++ l') = Some x.
Proof. by destruct l. Qed.

Lemma index_loop_spec h secs p sec (i : Z) :
  Forall (fun q => is_Some (sections h !! q)) secs ->
  p ∈ secs -> sections h !! p = Some sec ->
  exists k : nat,
    index_loop h secs p i = Ok (i + Z.of_nat k)
    /\ filter (has_type h (secType sec)) secs !! k = Some p.
Proof.
  intros Hwf Hin Hp. revert i.
  induction Hwf as [|q secs [sq Hq] _ IH]; intros i; [by inversion Hin |].
  cbn [index_loop]. rewrite filter_cons. case_bool_decide as Hqp.
  - subst q. exists 0%nat. rewrite Z.add_0_r. split; [done |].
    rewrite decide_True by (by apply (has_type_lookup h _ p sec)). done.
  - assert (p ∈ secs) as Hin' by (inversion Hin; congruence).
    rewrite (getSection_Some _ _ _ Hq), (getSection_Some _ _ _ Hp). cbn [rbind].
    pose proof (has_type_lookup h (secType sec) q sq Hq) as Hty.
    destruct (decide (has_type h (secType sec) q)).
    + rewrite bool_decide_eq_true_2 by tauto.
      destruct (IH Hin' (i + 1)) as (k & -> & Hk). exists (S k).
      split; [f_equal; lia | done].
    + rewrite bool_decide_eq_false_2 by tauto.
      destruct (IH Hin' i) as (k & -> & Hk). by exists k.
Qed.
End more_lookup.

(** X8.  For a name that does not start with the at sign, [Config.Get]
    returns the first section, in declaration order, whose name is this
    name, and nil when no section has it. *)
Theorem Get_named_first (h : Heap) (c : Config) (name : string) :
  wf_config h c -> String.prefix "@" name = false ->
  Config_Get h c name = Ok (head (filter (has_name h name) (cfgSections c))).
Proof. apply Config_Get_plain. Qed.

Lemma Get_named_first_witness :
  Config_Get ex_heap ex_config "named" = Ok (Some 1%nat)
  /\ Config_Get ex_heap ex_config "other" = Ok None.
Proof.
  split.
  - exact (Get_named_first ex_heap ex_config "named" ex_wf eq_refl).
  - exact (Get_named_first ex_heap ex_config "other" ex_wf eq_refl).
Defined.

(** X9.  [Config.Add] keeps what named lookups found: a name that
    [Config.Get] resolved before the call resolves to the same section
    after it; and the section added is found under its own name when no
    earlier section has this name. *)
Theorem Add_Get_named (h : Heap) (c : Config) (s : addr) (sec : SectionT) :
  wf_config h c -> sections h !! s = Some sec ->
  (forall name q, String.prefix "@" name = false ->
     Config_Get h c name = Ok (Some q) ->
     Config_Get h (Config_Add c s) name = Ok (Some q))
  /\ (String.prefix "@" (secName sec) = false ->
      Config_Get h c (secName sec) = Ok None ->
      Config_Get h (Config_Add c s) (secName sec) = Ok (Some s)).
Proof.
  intros Hwf Hs.
  assert (wf_config h (Config_Add c s)) as Hwf' by (by apply wf_config_Add).
  split.
  - intros name q Hat. rewrite !Config_Get_plain by done.
    unfold Config_Add. cbn [cfgSections]. rewrite filter_app.
    intros [= Hq]. f_equal. by apply head_app_keep.
  - intros Hat. rewrite !Config_Get_plain by done.
    unfold Config_Add. cbn [cfgSections]. rewrite filter_app.
    intros [= Hnone]. apply head_None in Hnone. rewrite Hnone.
    rewrite filter_cons, decide_True; [done |].
    by apply (has_name_lookup h _ s sec).
Qed.

Lemma Add_Get_named_witness :
  Config_Get overlay_heap (Config_Add overlay_config 4) "lan" = Ok (Some 1%nat)
  /\ Config_Get overlay_heap (Config_Add overlay_config 4) "wan" = Ok (Some 4%nat).
Proof.
  assert (wf_config overlay_heap overlay_config) as Hwf
    by (unfold wf_config; repeat constructor; by eexists).
  destruct (Add_Get_named overlay_heap overlay_config 4 _ Hwf eq_refl) as [Hold Hnew].
  split.
  - apply Hold; reflexivity.
  - apply Hnew; reflexivity.
Defined.

(** X10.  After [Config.Add] of a section of type [T], a selector of type
    [T] and index -1 resolves to the section added, and a selector that
    resolved to a section before resolves to the same section. *)
Theorem Add_Get_positional (h : Heap) (c : Config) (s : addr) (sec : SectionT) :
  wf_config h c -> sections h !! s = Some sec ->
  (forall name, unmangleSectionName name = (secType sec, -1, None) ->
     Config_Get h (Config_Add c s) name = Ok (Some s))
  /\ (forall name T i q, unmangleSectionName name = (T, i, None) -> 0 <= i ->
        Config_Get h c name = Ok (Some q) ->
        Config_Get h (Config_Add c s) name = Ok (Some q)).
Proof.
  intros Hwf Hs.
  assert (wf_config h (Config_Add c s)) as Hwf' by (by apply wf_config_Add).
  assert (forall T, sections_of_type h (Config_Add c s) T
                    = sections_of_type h c T ++ filter (has_type h T) [s]) as Happ.
  { intros T. unfold sections_of_type, Config_Add. cbn [cfgSections].
    by rewrite filter_app. }
  split.
  - intros name Hparse. unfold Config_Get.
    rewrite (unmangle_ok_prefix _ _ _ Hparse).
    rewrite (getUnnamed_parsed _ _ _ _ _ Hwf' Hparse). rewrite Happ.
    rewrite filter_cons, decide_True by (by apply (has_type_lookup h _ s sec)).
    rewrite filter_nil, length_app. cbn [length].
    set (n := length (sections_of_type h c (secType sec))).
    destruct (Z.ltb_spec (-1) (- Z.of_nat (n + 1))); [lia |].
    destruct (Z.leb_spec (Z.of_nat (n + 1)) (-1)); [lia |].
    cbn [orb rbind]. change (-1 <? 0) with true. cbn iota.
    replace (Z.to_nat (-1 + Z.of_nat (n + 1))) with (n + 0)%nat by lia.
    by rewrite lookup_app_r, Nat.add_comm, Nat.add_sub by lia.
  - intros name T i q Hparse Hi. unfold Config_Get.
    rewrite (unmangle_ok_prefix _ _ _ Hparse).
    rewrite (getUnnamed_parsed _ _ _ _ _ Hwf Hparse).
    rewrite (getUnnamed_parsed _ _ _ _ _ Hwf' Hparse). rewrite Happ, length_app.
    set (n := length (sections_of_type h c T)).
    set (m := length (filter (has_type h T) [s])).
    destruct (Z.ltb_spec i (- Z.of_nat n)); [done |].
    destruct (Z.leb_spec (Z.of_nat n) i); [done |].
    destruct (Z.ltb_spec i (- Z.of_nat (n + m))); [lia |].
    destruct (Z.leb_spec (Z.of_nat (n + m)) i); [lia |].
    destruct (Z.ltb_spec i 0); [lia |]. cbn [orb rbind].
    intros [= Hq]. rewrite lookup_app_l by (fold n; lia). by rewrite Hq.
Qed.

Lemma Add_Get_positional_witness :
  Config_Get overlay_heap (Config_Add overlay_config 2) "@interface[-1]"
  = Ok (Some 2%nat)
  /\ Config_Get overlay_heap (Config_Add overlay_config 2) "@interface[0]"
     = Ok (Some 1%nat).
Proof.
  assert (wf_config overlay_heap overlay_config) as Hwf
    by (unfold wf_config; repeat constructor; by eexists).
  destruct (Add_Get_positional overlay_heap overlay_config 2 _ Hwf eq_refl)
    as [Hlast Hold].
  split.
  - apply Hlast. reflexivity.
  - apply (Hold "@interface[0]" "interface" 0); [reflexivity | lia | reflexivity].
Defined.

(** X11.  The synthetic name of an unnamed section of a configuration
    leads back to it: when the type of the section is a type of the
    selector grammar, [Config.Get] of what [sectionName] returns is the
    section itself. *)
Theorem sectionName_Get (h : Heap) (c : Config) (p : addr) (sec : SectionT) :
  wf_config h c -> Z.of_nat (length (cfgSections c)) < 2 ^ 63 ->
  p ∈ cfgSections c -> sections h !! p = Some sec ->
  secName sec = "" -> selector_type (secType sec) = true ->
  exists key, Config_sectionName h c p = Ok key
              /\ Config_Get h c key = Ok (Some p).
Proof.
  intros Hwf Hlen Hin Hp Hname HT.
  destruct (index_loop_spec h (cfgSections c) p sec 0 Hwf Hin Hp) as (k & Hidx & Hk).
  exists (Num2PlaceholderSection (secType sec) (Z.of_nat k)). split.
  - unfold Config_sectionName, Config_index.
    rewrite (getSection_Some _ _ _ Hp). cbn [rbind].
    rewrite bool_decide_eq_false_2 by (rewrite Hname; tauto).
    rewrite Hidx. cbn [rbind]. by rewrite Z.add_0_l.
  - pose proof (lookup_lt_Some _ _ _ Hk) as Hklt.
    pose proof (length_filter (has_type h (secType sec)) (cfgSections c)) as Hfl.
    rewrite Get_Num2PlaceholderSection; try done.
    + destruct (Z.ltb_spec (Z.of_nat k) 0); [lia |].
      rewrite Nat2Z.id. unfold sections_of_type. by rewrite Hk.
    + unfold int_range. lia.
    + unfold sections_of_type. lia.
Qed.

Lemma sectionName_Get_witness :
  exists key, Config_sectionName ex_heap ex_config 3 = Ok key
              /\ Config_Get ex_heap ex_config key = Ok (Some 3%nat).
Proof.
  apply (sectionName_Get ex_heap ex_config 3
           (mkSection "" "foo" [16; 17; 18]%nat) ex_wf); try reflexivity.
  repeat constructor.
Defined.

(** * Further properties: deleting sections *)

Section more_del.
Implicit Types (h : Heap) (c : Config) (secs : list addr) (p q s : addr)
  (T name : string) (sec : SectionT) (indexs : gmap string Z).

Lemma filter_delete_found {A} (P : A -> Prop) `{!forall x, Decision (P x)}
  (l : list A) k x :
  list_find P l = Some (k, x) -> filter P (delete k l) = tail (filter P l).
Proof.
  revert k. induction l as [|y l IH]; intros k; cbn [list_find]; [done |].
  rewrite filter_cons. destruct (decide (P y)) as [Hy | Hy].
  - by intros [= <- <-].
  - destruct (list_find P l) as [[k' x'] |] eqn:E; [| done].
    intros [= <- <-]. cbn [delete list_delete]. rewrite filter_cons, decide_False by done.
    by apply IH.
Qed.

Lemma filter_find_None {A} (P : A -> Prop) `{!forall x, Decision (P x)} (l : list A) :
  list_find P l = None -> filter P l = [].
Proof.
  intros Hnone%list_find_None. apply filter_none.
  intros x Hx. rewrite Forall_forall in Hnone. auto.
Qed.







End more_del.











(** * Further properties: options *)

Section more_options.
Implicit Types (h : Heap) (opts : list addr) (p q s o : addr)
  (name : string) (sec : SectionT) (opt : OptionT).

Lemma opt_named_lookup h name q opt :
  options h !! q = Some opt -> opt_named h name q <-> optName opt = name.
Proof. unfold opt_named. intros ->. simpl. naive_solver. Qed.

Lemma Section_Get_loop_spec h opts name :
  wf_options h opts ->
  Section_Get_loop h opts name = Ok (head (filter (opt_named h name) opts)).
Proof.
  induction 1 as [|q opts [opt Hq] _ IH]; cbn [Section_Get_loop]; [done |].
  unfold getOption. rewrite Hq. cbn [rbind]. rewrite filter_cons.
  pose proof (opt_named_lookup h name q opt Hq) as Hnm.
  destruct (decide (opt_named h name q)).
  - by rewrite bool_decide_eq_true_2 by tauto.
  - by rewrite bool_decide_eq_false_2 by tauto.
Qed.

Lemma Section_Get_spec h s sec name :
  sections h !! s = Some sec -> wf_options h (secOptions sec) ->
  Section_Get h s name = Ok (head (filter (opt_named h name) (secOptions sec))).
Proof.
  intros Hs Hwf. unfold Section_Get. rewrite (getSection_Some _ _ _ Hs).
  by apply Section_Get_loop_spec.
Qed.

Lemma Section_Del_loop_spec h opts name (i : nat) :
  wf_options h opts ->
  Section_Del_loop h opts name i
  = Ok (i + default (length opts) (fst <$> list_find (opt_named h name) opts))%nat.
Proof.
  intros Hwf. revert i.
  induction Hwf as [|q opts [opt Hq] _ IH]; intros i; cbn [Section_Del_loop list_find].
  - f_equal. simpl. lia.
  - unfold getOption. rewrite Hq. cbn [rbind].
    pose proof (opt_named_lookup h name q opt Hq) as Hnm.
    destruct (decide (opt_named h name q)).
    + rewrite bool_decide_eq_true_2 by tauto. f_equal. simpl. lia.
    + rewrite bool_decide_eq_false_2 by tauto. rewrite IH. f_equal.
      destruct (list_find _ opts) as [[k x] |]; simpl; lia.
Qed.

Lemma Section_Merge_loop_spec h opts o opt :
  wf_options h opts -> options h !! o = Some opt ->
  Section_Merge_loop h opts o
  = match head (filter (opt_named h (optName opt)) opts) with
    | Some p => do h' <- Option_MergeValues h p (optValues opt); Ok (Some h')
    | None => Ok None
    end.
Proof.
  intros Hwf Ho.
  induction Hwf as [|q opts [oq Hq] _ IH]; cbn [Section_Merge_loop]; [done |].
  unfold getOption. rewrite Hq, Ho. cbn [rbind]. rewrite filter_cons.
  pose proof (opt_named_lookup h (optName opt) q oq Hq) as Hnm.
  destruct (decide (opt_named h (optName opt) q)).
  - by rewrite bool_decide_eq_true_2 by tauto.
  - by rewrite bool_decide_eq_false_2 by tauto.
Qed.

Lemma filter_opt_named_setOption h p opt opt' name opts :
  options h !! p = Some opt -> optName opt' = optName opt ->
  filter (opt_named (setOption h p opt') name) opts = filter (opt_named h name) opts.
Proof.
  intros Hp Hname. apply list_filter_iff. intros q. unfold opt_named, setOption.
  cbn [options]. destruct (decide (p = q)) as [<- | Hne].
  - rewrite lookup_insert_eq, Hp. simpl. by rewrite Hname.
  - by rewrite lookup_insert_ne.
Qed.

Lemma wf_options_setOption h p opt opts :
  wf_options h opts -> wf_options (setOption h p opt) opts.
Proof.
  unfold wf_options, setOption. cbn [options]. intros Hwf.
  eapply Forall_impl; [exact Hwf |]. cbn beta. intros q Hq.
  destruct (decide (p = q)) as [<- | Hne].
  - rewrite lookup_insert_eq. by eexists.
  - by rewrite lookup_insert_ne.
Qed.
End more_options.

(** X17.  [MergeValues] keeps the values of the option in place and
    appends, in their order, those of the given values that the option
    did not hold before the call; the name and the type of the option,
    the other options and the sections are not touched. *)
Theorem MergeValues_appends_new (h : Heap) (o : addr) (opt : OptionT)
  (vs : list string) :
  options h !! o = Some opt ->
  exists h1,
    Option_MergeValues h o vs = Ok h1
    /\ options h1 !! o
       = Some (mkOption (optName opt)
                 (optValues opt ++ filter (fun v => v ∉ optValues opt) vs)
                 (optType opt))
    /\ (forall q, q <> o -> options h1 !! q = options h !! q)
    /\ sections h1 = sections h.
Proof.
  intros Ho. rewrite (MergeValues_spec _ _ opt) by done. eexists. split; [done |].
  unfold setOption. cbn [options sections]. rewrite lookup_insert_eq.
  repeat split. intros q Hq. by rewrite lookup_insert_ne.
Qed.

Lemma MergeValues_appends_new_witness :
  exists h1,
    Option_MergeValues list_heap 1 ["80"; "22"; "443"] = Ok h1
    /\ options h1 !! 1%nat = Some (mkOption "ports" ["22"; "80"; "443"] TypeList)
    /\ (forall q, q <> 1%nat -> options h1 !! q = options list_heap !! q)
    /\ sections h1 = sections list_heap.
Proof.
  exact (MergeValues_appends_new list_heap 1 (mkOption "ports" ["22"] TypeList)
           ["80"; "22"; "443"] eq_refl).
Defined.

(** X18.  Merging the same values a second time changes nothing. *)
Theorem MergeValues_twice (h h1 : Heap) (o : addr) (vs : list string) :
  Option_MergeValues h o vs = Ok h1 ->
  Option_MergeValues h1 o vs = Ok h1.
Proof.
  intros Hm. apply (MergeValues_idempotent h); [| done].
  unfold Option_MergeValues, getOption in Hm.
  destruct (options h !! o); [by eexists | done].
Qed.

Lemma MergeValues_twice_witness :
  exists h1, Option_MergeValues list_heap 1 ["80"; "80"] = Ok h1
             /\ Option_MergeValues h1 1 ["80"; "80"] = Ok h1.
Proof.
  eexists. split; [reflexivity |].
  apply (MergeValues_twice list_heap _ 1 ["80"; "80"]). reflexivity.
Defined.

(** X19.  When the option holds no value twice and the given values hold
    none twice, the option holds no value twice after [MergeValues], and
    it holds exactly the values it held and the values given. *)
Theorem MergeValues_union (h h1 : Heap) (o : addr) (opt : OptionT)
  (vs : list string) :
  options h !! o = Some opt ->
  NoDup (optValues opt) -> NoDup vs ->
  Option_MergeValues h o vs = Ok h1 ->
  exists opt1,
    options h1 !! o = Some opt1
    /\ NoDup (optValues opt1)
    /\ forall v, v ∈ optValues opt1 <-> v ∈ optValues opt \/ v ∈ vs.
Proof.
  intros Ho Hold Hvs Hm.
  destruct (MergeValues_NoDup h h1 o opt vs Ho Hold Hvs Hm) as (opt1 & Ho1 & Hnd).
  exists opt1. split; [done |]. split; [done |].
  rewrite (MergeValues_spec _ _ opt) in Hm by done. injection Hm as <-.
  unfold setOption in Ho1. cbn [options] in Ho1. rewrite lookup_insert_eq in Ho1.
  injection Ho1 as <-. cbn [optValues]. intros v.
  rewrite elem_of_app, list_elem_of_filter.
  destruct (decide (v ∈ optValues opt)); tauto.
Qed.

Lemma MergeValues_union_witness :
  exists opt1,
    options (setOption list_heap 1 (mkOption "ports" ["22"; "80"] TypeList)) !! 1%nat
    = Some opt1
    /\ NoDup (optValues opt1)
    /\ forall v, v ∈ optValues opt1 <-> v ∈ ["22"] \/ v ∈ ["80"; "22"].
Proof.
  refine (MergeValues_union list_heap _ 1 (mkOption "ports" ["22"] TypeList)
            ["80"; "22"] eq_refl _ _ eq_refl).
  - apply (bool_decide_unpack _). vm_compute. exact I.
  - apply (bool_decide_unpack _). vm_compute. exact I.
Defined.

(** X20.  [Section.Get] returns the first option of the section, in the
    order of the section, whose name is the name asked for, and nil when
    the section has none. *)
Theorem Section_Get_first (h : Heap) (s : addr) (sec : SectionT) (name : string) :
  sections h !! s = Some sec -> wf_options h (secOptions sec) ->
  Section_Get h s name = Ok (head (filter (opt_named h name) (secOptions sec))).
Proof. apply Section_Get_spec. Qed.

Lemma Section_Get_first_witness :
  Section_Get ex_heap 1 "list" = Ok (Some 12%nat)
  /\ Section_Get ex_heap 1 "absent" = Ok None.
Proof.
  assert (wf_options ex_heap [10; 11; 12]%nat) as Hwf
    by (repeat constructor; by eexists).
  split.
  - exact (Section_Get_first ex_heap 1 _ "list" eq_refl Hwf).
  - exact (Section_Get_first ex_heap 1 _ "absent" eq_refl Hwf).
Defined.

(** X21.  After [Section.Add] of an option, [Section.Get] finds under
    every name the option it found before, and finds the option added
    under its name when the section had no option of this name. *)
Theorem Section_Add_Get (h : Heap) (s o : addr) (sec : SectionT) (opt : OptionT) :
  sections h !! s = Some sec -> wf_options h (secOptions sec) ->
  options h !! o = Some opt ->
  exists h1,
    Section_Add h s o = Ok h1
    /\ (forall name p, Section_Get h s name = Ok (Some p) ->
                       Section_Get h1 s name = Ok (Some p))
    /\ (Section_Get h s (optName opt) = Ok None ->
        Section_Get h1 s (optName opt) = Ok (Some o)).
Proof.
  intros Hs Hwf Ho. unfold Section_Add. rewrite (getSection_Some _ _ _ Hs).
  cbn [rbind]. eexists. split; [done |].
  set (sec1 := mkSection (secName sec) (secType sec) (secOptions sec ++ [o])).
  assert (forall name,
            Section_Get (setSection h s sec1) s name
            = Ok (head (filter (opt_named h name) (secOptions sec ++ [o])))) as Hget1.
  { intros name. rewrite (Section_Get_spec _ _ sec1).
    - done.
    - unfold setSection. cbn [sections]. apply lookup_insert_eq.
    - unfold setSection, wf_options. cbn [options secOptions sec1].
      apply Forall_app. split; [done |]. constructor; [by eexists | done]. }
  split.
  - intros name p. rewrite (Section_Get_spec _ _ sec), Hget1 by done.
    intros [= Hp]. rewrite filter_app. f_equal. by apply head_app_keep.
  - rewrite (Section_Get_spec _ _ sec), Hget1 by done.
    intros [= Hnone]. apply head_None in Hnone. rewrite filter_app, Hnone.
    rewrite filter_cons, decide_True; [done |].
    by apply (opt_named_lookup h _ o opt).
Qed.

Lemma Section_Add_Get_witness :
  exists h1,
    Section_Add overlay_heap 1 11 = Ok h1
    /\ (forall name p, Section_Get overlay_heap 1 name = Ok (Some p) ->
                       Section_Get h1 1 name = Ok (Some p))
    /\ (Section_Get overlay_heap 1 "mtu" = Ok None ->
        Section_Get h1 1 "mtu" = Ok (Some 11%nat)).
Proof.
  refine (Section_Add_Get overlay_heap 1 11 _ (mkOption "mtu" ["1500"] TypeOption)
            eq_refl _ eq_refl).
  repeat constructor; by eexists.
Defined.

(** * Further properties: the options of a section *)

Lemma filter_opt_named_setSection (h : Heap) (s : addr) (sec : SectionT)
  (name : string) (l : list addr) :
  filter (opt_named (setSection h s sec) name) l = filter (opt_named h name) l.
Proof. apply list_filter_iff. intros q. reflexivity. Qed.

(** X22.  After [Section.Merge] of an option, the section has an option
    of this name that holds every value of the option merged; the section
    has one option more when it had none of this name, and as many as
    before otherwise. *)
Theorem Section_Merge_Get (h : Heap) (s o : addr) (sec : SectionT) (opt : OptionT) :
  sections h !! s = Some sec -> wf_options h (secOptions sec) ->
  options h !! o = Some opt ->
  exists h1 sec1 p opt1,
    Section_Merge h s o = Ok h1
    /\ sections h1 !! s = Some sec1
    /\ Section_Get h1 s (optName opt) = Ok (Some p)
    /\ options h1 !! p = Some opt1
    /\ (forall v, v ∈ optValues opt -> v ∈ optValues opt1)
    /\ length (secOptions sec1)
       = (length (secOptions sec)
          + if decide (Section_Get h s (optName opt) = Ok None) then 1 else 0)%nat.
Proof.
  intros Hs Hwf Ho. unfold Section_Merge.
  rewrite (getSection_Some _ _ _ Hs). cbn [rbind].
  rewrite (Section_Merge_loop_spec _ _ _ opt) by done.
  rewrite (Section_Get_spec _ _ sec) by done.
  destruct (head (filter (opt_named h (optName opt)) (secOptions sec)))
    as [p |] eqn:Hhead.
  - assert (is_Some (options h !! p)) as [op Hp].
    { apply head_Some_elem_of, list_elem_of_filter in Hhead as [_ Hin].
      unfold wf_options in Hwf. rewrite Forall_forall in Hwf. auto. }
    rewrite (MergeValues_spec _ _ op) by done. cbn [rbind].
    eexists _, sec, p, _. split; [done |]. split; [done |]. split.
    + rewrite (Section_Get_spec _ _ sec) by auto using wf_options_setOption.
      by rewrite (filter_opt_named_setOption _ _ op), Hhead.
    + split; [unfold setOption; cbn [options]; apply lookup_insert_eq |].
      split.
      * intros v Hv. cbn [optValues]. apply elem_of_app.
        destruct (decide (v ∈ optValues op)); [by left | right].
        by apply list_elem_of_filter.
      * rewrite decide_False by done. lia.
  - cbn [rbind].
    set (sec1 := mkSection (secName sec) (secType sec) (secOptions sec ++ [o])).
    exists (setSection h s sec1), sec1, o, opt. split; [done |].
    assert (sections (setSection h s sec1) !! s = Some sec1) as Hs1
      by (unfold setSection; cbn [sections]; apply lookup_insert_eq).
    split; [done |]. split.
    + rewrite (Section_Get_spec _ _ sec1); [| done |].
      * cbn [secOptions sec1]. apply head_None in Hhead.
        rewrite filter_opt_named_setSection.
        rewrite filter_app, Hhead, filter_cons, decide_True; [done |].
        by apply (opt_named_lookup h _ o opt).
      * unfold wf_options. cbn [secOptions sec1]. apply Forall_app.
        split; [done |]. constructor; [by eexists | done].
    + split; [done |]. split; [done |].
      rewrite decide_True by done. cbn [secOptions sec1]. by rewrite length_app.
Qed.

Lemma Section_Merge_Get_witness :
  exists h1 sec1 p opt1,
    Section_Merge ex_heap 1 18 = Ok h1
    /\ sections h1 !! 1%nat = Some sec1
    /\ Section_Get h1 1 "list" = Ok (Some p)
    /\ options h1 !! p = Some opt1
    /\ (forall v, v ∈ ["20"] -> v ∈ optValues opt1)
    /\ length (secOptions sec1)
       = (3 + if decide (Section_Get ex_heap 1 "list" = Ok None) then 1 else 0)%nat.
Proof.
  refine (Section_Merge_Get ex_heap 1 18 _ (mkOption "list" ["20"] TypeList)
            eq_refl _ eq_refl).
  repeat constructor; by eexists.
Defined.

(** X23.  [Section.Del] removes the first option of the name given,
    keeps the other options in their order and returns true; when the
    section has no option of this name it changes nothing and returns
    false. *)
Theorem Section_Del_first (h : Heap) (s : addr) (sec : SectionT) (name : string) :
  sections h !! s = Some sec -> wf_options h (secOptions sec) ->
  Section_Del h s name
  = Ok (match list_find (opt_named h name) (secOptions sec) with
        | Some (k, _) =>
            (setSection h s
               (mkSection (secName sec) (secType sec) (delete k (secOptions sec))),
             true)
        | None => (h, false)
        end).
Proof.
  intros Hs Hwf. unfold Section_Del.
  rewrite (getSection_Some _ _ _ Hs). cbn [rbind].
  rewrite Section_Del_loop_spec by done. cbn [rbind]. rewrite Nat.add_0_l.
  destruct (list_find _ _) as [[k q] |] eqn:Hfind;
    cbn [fmap option_fmap option_map default fst]; unfold id.
  - apply list_find_Some in Hfind as (Hk & _). apply lookup_lt_Some in Hk.
    destruct (Nat.eqb_spec k (length (secOptions sec))); [lia |].
    by rewrite delete_take_drop.
  - by rewrite Nat.eqb_refl.
Qed.

Lemma Section_Del_first_witness :
  Section_Del ex_heap 1 "unnamed"
  = Ok (setSection ex_heap 1 (mkSection "named" "foo" [10; 12]%nat), true)
  /\ Section_Del ex_heap 1 "absent" = Ok (ex_heap, false).
Proof.
  assert (wf_options ex_heap [10; 11; 12]%nat) as Hwf
    by (repeat constructor; by eexists).
  split.
  - exact (Section_Del_first ex_heap 1 _ "unnamed" eq_refl Hwf).
  - exact (Section_Del_first ex_heap 1 _ "absent" eq_refl Hwf).
Defined.

(** X24.  After [Section.Del] of a name, [Section.Get] of this name
    returns the second of the options that bore it before, and nil when
    at most one did; [Section.Del] returned true exactly when
    [Section.Get] found an option before. *)
Theorem Section_Del_then_Get (h : Heap) (s : addr) (sec : SectionT) (name : string) :
  sections h !! s = Some sec -> wf_options h (secOptions sec) ->
  exists h1 found,
    Section_Del h s name = Ok (h1, found)
    /\ Section_Get h1 s name
       = Ok (filter (opt_named h name) (secOptions sec) !! 1%nat)
    /\ (found = true <-> Section_Get h s name <> Ok None).
Proof.
  intros Hs Hwf. rewrite (Section_Del_first _ _ sec) by done.
  rewrite (Section_Get_spec _ _ sec) by done.
  destruct (list_find _ _) as [[k q] |] eqn:Hfind; eexists _, _; (split; [done |]).
  - set (sec1 := mkSection _ _ _).
    rewrite (Section_Get_spec _ _ sec1).
    + cbn [secOptions sec1]. rewrite filter_opt_named_setSection.
      rewrite (filter_delete_found _ _ _ _ Hfind).
      apply list_find_Some in Hfind as (Hk & HP & _).
      assert (q ∈ filter (opt_named h name) (secOptions sec)) as Hin.
      { apply list_elem_of_filter. split; [done |]. by eapply list_elem_of_lookup_2. }
      destruct (filter _ (secOptions sec)) as [|x l]; [by apply elem_of_nil in Hin |].
      split; [by destruct l | done].
    + unfold setSection. cbn [sections]. apply lookup_insert_eq.
    + unfold wf_options. cbn [secOptions sec1 options setSection].
      by apply Forall_delete.
  - rewrite (Section_Get_spec _ _ sec) by done.
    rewrite filter_find_None by done. split; [done |]. split; [done | tauto].
Qed.

Lemma Section_Del_then_Get_witness :
  exists h1 found,
    Section_Del ex_heap 1 "pos" = Ok (h1, found)
    /\ Section_Get h1 1 "pos" = Ok (filter (opt_named ex_heap "pos") [10; 11; 12]%nat !! 1%nat)
    /\ (found = true <-> Section_Get ex_heap 1 "pos" <> Ok None).
Proof.
  refine (Section_Del_then_Get ex_heap 1 _ "pos" eq_refl _).
  repeat constructor; by eexists.
Defined.

(** X25.  [Section.OptionValue] returns the values of the option that
    [Section.Get] finds under the name, and the values passed as default
    when [Section.Get] finds none. *)
Theorem OptionValue_Get (h : Heap) (s : addr) (sec : SectionT) (name : string)
  (values : list string) :
  sections h !! s = Some sec -> wf_options h (secOptions sec) ->
  exists r,
    Section_Get h s name = Ok r
    /\ Section_OptionValue h s name values
       = Ok (match r with
             | Some p => default [] (optValues <$> options h !! p)
             | None => values
             end).
Proof.
  intros Hs Hwf. unfold Section_Get, Section_OptionValue.
  rewrite (getSection_Some _ _ _ Hs). cbn [rbind].
  induction Hwf as [|q opts [oq Hq] _ IH];
    cbn [Section_Get_loop OptionValue_loop]; [by eexists |].
  unfold getOption. rewrite Hq. cbn [rbind].
  destruct (bool_decide _); [| done].
  eexists. split; [done |]. cbn beta iota. by rewrite Hq.
Qed.

Lemma OptionValue_Get_witness :
  exists r,
    Section_Get ex_heap 1 "list" = Ok r
    /\ Section_OptionValue ex_heap 1 "list" ["none"]
       = Ok (match r with
             | Some p => default [] (optValues <$> options ex_heap !! p)
             | None => ["none"]
             end).
Proof.
  refine (OptionValue_Get ex_heap 1 _ "list" ["none"] eq_refl _).
  repeat constructor; by eexists.
Defined.

(** X26.  [Section.OptionLastValue] returns the last value of the option
    that [Section.Get] finds under the name, the default when
    [Section.Get] finds none, and panics when the option found holds no
    value. *)
Theorem OptionLastValue_Get (h : Heap) (s : addr) (sec : SectionT) (name value : string) :
  sections h !! s = Some sec -> wf_options h (secOptions sec) ->
  exists r,
    Section_Get h s name = Ok r
    /\ Section_OptionLastValue h s name value
       = match r with
         | None => Ok value
         | Some p =>
             match last (default [] (optValues <$> options h !! p)) with
             | Some v => Ok v
             | None => Panic "index out of range [-1]"
             end
         end.
Proof.
  intros Hs Hwf. unfold Section_Get, Section_OptionLastValue.
  rewrite (getSection_Some _ _ _ Hs). cbn [rbind].
  induction Hwf as [|q opts [oq Hq] _ IH];
    cbn [Section_Get_loop OptionLastValue_loop]; [by eexists |].
  unfold getOption. rewrite Hq. cbn [rbind].
  destruct (bool_decide _); [| done].
  eexists. split; [done |]. cbn beta iota. by rewrite Hq.
Qed.

Lemma OptionLastValue_Get_witness :
  Section_OptionLastValue ex_heap 1 "list" "none" = Ok "30"
  /\ Section_OptionLastValue
       (setOption ex_heap 12 (mkOption "list" [] TypeList)) 1 "list" "none"
     = Panic "index out of range [-1]".
Proof.
  split.
  - destruct (OptionLastValue_Get ex_heap 1 _ "list" "none" eq_refl) as (r & Hr & ->).
    + repeat constructor; by eexists.
    + vm_compute in Hr. by injection Hr as <-.
  - destruct (OptionLastValue_Get (setOption ex_heap 12 (mkOption "list" [] TypeList))
                1 _ "list" "none" eq_refl) as (r & Hr & ->).
    + repeat constructor; by eexists.
    + vm_compute in Hr. by injection Hr as <-.
Defined.

(** * Further properties: merging sections, and writing *)

Section more_merge.
Implicit Types (h : Heap) (c : Config) (opts secs : list addr) (p q s o : addr)
  (name key : string) (sec : SectionT) (opt : OptionT).

Lemma heap_grows_refl h : heap_grows h h.
Proof. split; [intros q opt Hq; by exists opt | intros p sec Hp; by exists sec]. Qed.

Lemma heap_grows_trans h1 h2 h3 :
  heap_grows h1 h2 -> heap_grows h2 h3 -> heap_grows h1 h3.
Proof.
  intros [Ho1 Hs1] [Ho2 Hs2]. split.
  - intros q opt Hq. destruct (Ho1 _ _ Hq) as (opt' & Hq' & Hn & Hv).
    destruct (Ho2 _ _ Hq') as (opt'' & Hq'' & Hn' & Hv').
    exists opt''. split; [done |]. split; [congruence | auto].
  - intros p sec Hp. destruct (Hs1 _ _ Hp) as (sec' & Hp' & Hpre).
    destruct (Hs2 _ _ Hp') as (sec'' & Hp'' & Hpre').
    exists sec''. split; [done |]. by etrans.
Qed.

Lemma wf_options_grows h h' opts :
  heap_grows h h' -> wf_options h opts -> wf_options h' opts.
Proof.
  intros [Ho _] Hwf. unfold wf_options in *.
  eapply Forall_impl; [exact Hwf |]. cbn beta.
  intros q [opt Hq]. destruct (Ho _ _ Hq) as (opt' & -> & _). by eexists.
Qed.

Lemma filter_opt_named_grows h h' name opts :
  heap_grows h h' -> wf_options h opts ->
  filter (opt_named h' name) opts = filter (opt_named h name) opts.
Proof.
  intros [Ho _] Hwf. induction Hwf as [|q opts [opt Hq] _ IH]; [done |].
  rewrite !filter_cons, IH. destruct (Ho _ _ Hq) as (opt' & Hq' & Hn & _).
  pose proof (opt_named_lookup h name q opt Hq) as H1.
  pose proof (opt_named_lookup h' name q opt' Hq') as H2.
  destruct (decide (opt_named h' name q)), (decide (opt_named h name q));
    try done; exfalso; rewrite Hn in H2; tauto.
Qed.

Lemma Section_Get_grows h h' s sec sec' name p :
  heap_grows h h' ->
  sections h !! s = Some sec -> wf_options h (secOptions sec) ->
  sections h' !! s = Some sec' -> wf_options h' (secOptions sec') ->
  Section_Get h s name = Ok (Some p) -> Section_Get h' s name = Ok (Some p).
Proof.
  intros Hg Hs Hwf Hs' Hwf'.
  rewrite (Section_Get_spec _ _ sec), (Section_Get_spec _ _ sec') by done.
  intros [= Hhead]. f_equal.
  destruct (proj2 Hg _ _ Hs) as (sec'' & Hs'' & [k Hk]).
  assert (sec'' = sec') by congruence. subst sec''.
  rewrite Hk, filter_app. apply head_app_keep.
  by rewrite (filter_opt_named_grows h).
Qed.

(** One call of [Section.Merge]. *)
Lemma Section_Merge_grows h s sec o opt :
  sections h !! s = Some sec -> wf_options h (secOptions sec) ->
  options h !! o = Some opt ->
  exists h1 sec1 p opt1,
    Section_Merge h s o = Ok h1
    /\ heap_grows h h1
    /\ sections h1 !! s = Some sec1
    /\ wf_options h1 (secOptions sec1)
    /\ Section_Get h1 s (optName opt) = Ok (Some p)
    /\ options h1 !! p = Some opt1
    /\ (forall v, v ∈ optValues opt -> v ∈ optValues opt1).
Proof.
  intros Hs Hwf Ho. unfold Section_Merge.
  rewrite (getSection_Some _ _ _ Hs). cbn [rbind].
  rewrite (Section_Merge_loop_spec _ _ _ opt) by done.
  destruct (head (filter (opt_named h (optName opt)) (secOptions sec)))
    as [p |] eqn:Hhead.
  - assert (is_Some (options h !! p)) as [op Hp].
    { apply head_Some_elem_of, list_elem_of_filter in Hhead as [_ Hin].
      unfold wf_options in Hwf. rewrite Forall_forall in Hwf. auto. }
    rewrite (MergeValues_spec _ _ op) by done. cbn [rbind].
    eexists _, sec, p, _. split; [done |]. split.
    { split.
      - intros q oq Hq. unfold setOption. cbn [options].
        destruct (decide (p = q)) as [<- | Hne].
        + rewrite lookup_insert_eq. eexists. split; [done |].
          assert (oq = op) by congruence. subst oq. cbn [optName optValues].
          split; [done |]. intros v Hv. apply elem_of_app. by left.
        + rewrite lookup_insert_ne by done. by exists oq.
      - intros q sq Hq. by exists sq. }
    split; [done |]. split; [by apply wf_options_setOption |]. split.
    + rewrite (Section_Get_spec _ _ sec) by auto using wf_options_setOption.
      by rewrite (filter_opt_named_setOption _ _ op), Hhead.
    + split; [unfold setOption; cbn [options]; apply lookup_insert_eq |].
      intros v Hv. cbn [optValues]. apply elem_of_app.
      destruct (decide (v ∈ optValues op)); [by left | right].
      by apply list_elem_of_filter.
  - cbn [rbind].
    set (sec1 := mkSection (secName sec) (secType sec) (secOptions sec ++ [o])).
    exists (setSection h s sec1), sec1, o, opt. split; [done |].
    assert (sections (setSection h s sec1) !! s = Some sec1) as Hs1
      by (unfold setSection; cbn [sections]; apply lookup_insert_eq).
    assert (wf_options (setSection h s sec1) (secOptions sec1)) as Hwf1.
    { unfold wf_options. cbn [secOptions sec1]. apply Forall_app.
      split; [done |]. constructor; [by eexists | done]. }
    split.
    { split.
      - intros q oq Hq. by exists oq.
      - intros q sq Hq. unfold setSection. cbn [sections].
        destruct (decide (s = q)) as [<- | Hne].
        + rewrite lookup_insert_eq. exists sec1. split; [done |].
          assert (sq = sec) by congruence. subst sq. by exists [o].
        + rewrite lookup_insert_ne by done. by exists sq. }
    split; [done |]. split; [done |]. split.
    + rewrite (Section_Get_spec _ _ sec1) by done.
      cbn [secOptions sec1]. apply head_None in Hhead.
      rewrite filter_opt_named_setSection.
      rewrite filter_app, Hhead, filter_cons, decide_True; [done |].
      by apply (opt_named_lookup h _ o opt).
    + done.
Qed.

(** The second loop of [Config.Merge]. *)
Lemma Merge_options_spec h found secf opts :
  sections h !! found = Some secf -> wf_options h (secOptions secf) ->
  wf_options h opts ->
  exists h' secf',
    Merge_options h found opts = Ok h'
    /\ heap_grows h h'
    /\ sections h' !! found = Some secf'
    /\ wf_options h' (secOptions secf')
    /\ forall o opt, o ∈ opts -> options h !! o = Some opt ->
         exists p opt1,
           Section_Get h' found (optName opt) = Ok (Some p)
           /\ options h' !! p = Some opt1
           /\ forall v, v ∈ optValues opt -> v ∈ optValues opt1.
Proof.
  intros Hf Hwf Hopts. revert h secf Hf Hwf Hopts.
  induction opts as [|o opts IH]; intros h secf Hf Hwf Hopts.
  - exists h, secf. split; [done |]. split; [apply heap_grows_refl |].
    split; [done |]. split; [done |].
    intros o opt Ho. by apply elem_of_nil in Ho.
  - unfold wf_options in Hopts. apply Forall_cons in Hopts as [[opt Ho] Hopts].
    destruct (Section_Merge_grows h found secf o opt Hf Hwf Ho)
      as (h1 & sec1 & p & opt1 & Hm & Hg1 & Hf1 & Hwf1 & Hget1 & Hp1 & Hv1).
    destruct (IH h1 sec1 Hf1 Hwf1 (wf_options_grows _ _ _ Hg1 Hopts))
      as (h' & secf' & Hm' & Hg' & Hf' & Hwf' & Hall).
    exists h', secf'. cbn [Merge_options]. rewrite Hm. cbn [rbind].
    split; [done |]. split; [by eapply heap_grows_trans |].
    split; [done |]. split; [done |].
    intros o' opt' Hin Ho'. apply elem_of_cons in Hin as [-> | Hin].
    + assert (opt' = opt) by congruence. subst opt'.
      destruct (proj1 Hg' _ _ Hp1) as (opt2 & Hp2 & _ & Hv2).
      exists p, opt2.
      split; [by apply (Section_Get_grows h1 h' found sec1 secf') |].
      split; [done | auto].
    + destruct (proj1 Hg1 _ _ Ho') as (opt'' & Ho'' & Hn & Hv).
      destruct (Hall o' opt'' Hin Ho'') as (p' & opt3 & Hget & Hp3 & Hv3).
      exists p', opt3. rewrite <- Hn. split; [done |]. split; [done | auto].
Qed.

Lemma index_loop_app h secs p s (i : Z) :
  p ∈ secs -> index_loop h (secs ++ [s]) p i = index_loop h secs p i.
Proof.
  revert i. induction secs as [|q secs IH]; intros i Hin; [by inversion Hin |].
  cbn [index_loop app]. case_bool_decide as Hqp; [done |].
  assert (p ∈ secs) as Hin' by (inversion Hin; congruence).
  destruct (getSection h q); cbn [rbind]; [| done].
  destruct (getSection h p); cbn [rbind]; [| done].
  destruct (bool_decide _); by apply IH.
Qed.

Lemma has_key_Add h c s key p :
  p ∈ cfgSections c -> has_key h (Config_Add c s) key p = has_key h c key p.
Proof.
  intros Hin. unfold has_key, Config_sectionName, Config_index, Config_Add.
  cbn [cfgSections]. by rewrite index_loop_app.
Qed.

Lemma find_has_key_Add h c s key secs :
  (forall p, p ∈ secs -> p ∈ cfgSections c) ->
  find (has_key h (Config_Add c s) key) secs = find (has_key h c key) secs.
Proof.
  induction secs as [|p secs IH]; intros Hsub; [done |].
  cbn [find]. rewrite has_key_Add by (apply Hsub; constructor).
  rewrite IH; [done |]. intros q Hq. apply Hsub. by constructor.
Qed.

Lemma find_app_None {A} (f : A -> bool) (l l' : list A) :
  find f l = None -> find f (l ++ l') = find f l'.
Proof.
  induction l as [|x l IH]; [done |]. cbn [find app].
  destruct (f x); [done | exact IH].
Qed.

Lemma write_options_outcome h buf opts os :
  resolve_options h opts = Some os ->
  (exists out, write_options h buf opts = Ok out)
  \/ write_options h buf opts = Panic "index out of range [0] with length 0".
Proof.
  revert buf os. induction opts as [|p opts IH]; intros buf os; cbn [resolve_options].
  - intros _. left. by eexists.
  - destruct (options h !! p) as [o |] eqn:Hp; [| done].
    destruct (resolve_options h opts) as [tl |] eqn:Htl; [| done].
    intros _. cbn [write_options]. unfold getOption. rewrite Hp. cbn [rbind].
    destruct (optType o); [destruct (optValues o); [by right |] |]; by apply (IH _ tl).
Qed.

Lemma write_options_without_value h buf opts os :
  resolve_options h opts = Some os -> Exists option_without_value os ->
  write_options h buf opts = Panic "index out of range [0] with length 0".
Proof.
  revert buf os. induction opts as [|p opts IH]; intros buf os; cbn [resolve_options].
  - intros [= <-] Hex. by apply Exists_nil in Hex.
  - destruct (options h !! p) as [o |] eqn:Hp; [| done].
    destruct (resolve_options h opts) as [tl |] eqn:Htl; [| done].
    intros [= <-] Hex. cbn [write_options]. unfold getOption. rewrite Hp. cbn [rbind].
    apply Exists_cons in Hex as [[Hty Hv] | Hex].
    + by rewrite Hty, Hv.
    + destruct (optType o); [destruct (optValues o); [done |] |]; by apply (IH _ tl).
Qed.

Lemma write_sections_without_value h buf secs tree :
  resolve_sections h secs = Some tree ->
  Exists (fun b => Exists option_without_value b.2) tree ->
  write_sections h buf secs = Panic "index out of range [0] with length 0".
Proof.
  revert buf tree. induction secs as [|p secs IH]; intros buf tree; cbn [resolve_sections].
  - intros [= <-] Hex. by apply Exists_nil in Hex.
  - destruct (sections h !! p) as [sec |] eqn:Hp; [| done].
    destruct (resolve_options h (secOptions sec)) as [os |] eqn:Hos; [| done].
    destruct (resolve_sections h secs) as [tl |] eqn:Htl; [| done].
    intros [= <-] Hex. cbn [write_sections].
    rewrite (getSection_Some _ _ _ Hp). cbn [rbind].
    apply Exists_cons in Hex as [Hex | Hex].
    + cbn [snd] in Hex. by rewrite (write_options_without_value _ _ _ os).
    + match goal with
      | |- context [write_options h ?b _] =>
          destruct (write_options_outcome h b _ os Hos) as [[out ->] | ->]
      end; [| done].
      cbn [rbind]. by apply (IH _ tl).
Qed.
End more_merge.

(** X27.  A section made by [newSection] without a name and handed to
    [Config.Merge] is appended when the configuration holds no section;
    when the configuration holds one, [Merge] panics in [index], whatever
    the type of the section. *)
Theorem Merge_new_unnamed (h : Heap) (c : Config) (typ : string) :
  wf_config h c ->
  Config_Merge (newSection h typ "").1 c (newSection h typ "").2
  = if decide (cfgSections c = [])
    then Ok ((newSection h typ "").1,
             Config_Add c (newSection h typ "").2,
             (newSection h typ "").2)
    else Panic "not reached".
Proof.
  intros Hwf. unfold newSection. cbn [fst snd].
  set (s := fresh (dom (sections h))). set (sec := mkSection "" typ []).
  assert (sections h !! s = None) as Hfresh by (apply not_elem_of_dom, is_fresh).
  destruct (decide (cfgSections c = [])) as [Hnil | Hne].
  - unfold Config_Merge. by rewrite Hnil.
  - apply (Config_Merge_unnamed_not_reached _ _ _ sec).
    + unfold wf_config, setSection in *. cbn [sections].
      eapply Forall_impl; [exact Hwf |]. cbn beta. intros p [sp Hp].
      rewrite lookup_insert_ne; [by eexists |]. intros <-. congruence.
    + done.
    + unfold setSection. cbn [sections]. apply lookup_insert_eq.
    + done.
    + intros Hin. unfold wf_config in Hwf. rewrite Forall_forall in Hwf.
      destruct (Hwf _ Hin) as [sp Hsp]. congruence.
Qed.

Lemma Merge_new_unnamed_witness :
  Config_Merge (newSection ex_heap "bar" "").1 ex_config (newSection ex_heap "bar" "").2
  = Panic "not reached".
Proof. exact (Merge_new_unnamed ex_heap ex_config "bar" ex_wf). Defined.

(** X28.  [Config.Merge] of a named section, when a section of the
    configuration has the name as its identity key: [Merge] returns the
    first such section and leaves the list of sections as it is, and
    afterwards the section returned has, for every option of the section
    merged, an option of this name that holds every value of it. *)
Theorem Merge_named_found (h : Heap) (c : Config) (s found : addr)
  (sec secf : SectionT) :
  wf_config h c ->
  sections h !! s = Some sec -> secName sec <> "" ->
  wf_options h (secOptions sec) ->
  find (has_key h c (secName sec)) (cfgSections c) = Some found ->
  sections h !! found = Some secf -> wf_options h (secOptions secf) ->
  exists h',
    Config_Merge h c s = Ok (h', c, found)
    /\ forall o opt, o ∈ secOptions sec -> options h !! o = Some opt ->
         exists p opt1,
           Section_Get h' found (optName opt) = Ok (Some p)
           /\ options h' !! p = Some opt1
           /\ forall v, v ∈ optValues opt -> v ∈ optValues opt1.
Proof.
  intros Hwf Hs Hname Hopts Hfind Hf Hwff.
  pose proof (Config_Merge_named h c s sec Hwf Hs Hname) as Hm.
  rewrite Hfind in Hm. rewrite Hm.
  destruct (Merge_options_spec h found secf (secOptions sec) Hf Hwff Hopts)
    as (h' & secf' & -> & _ & _ & _ & Hall).
  by exists h'.
Qed.

Lemma Merge_named_found_witness :
  exists h',
    Config_Merge overlay_heap overlay_config 3 = Ok (h', overlay_config, 1%nat)
    /\ forall o opt, o ∈ [11%nat] -> options overlay_heap !! o = Some opt ->
         exists p opt1,
           Section_Get h' 1 (optName opt) = Ok (Some p)
           /\ options h' !! p = Some opt1
           /\ forall v, v ∈ optValues opt -> v ∈ optValues opt1.
Proof.
  refine (Merge_named_found overlay_heap overlay_config 3 1
            (mkSection "lan" "interface" [11%nat])
            (mkSection "lan" "interface" [10%nat])
            _ eq_refl _ _ eq_refl eq_refl _).
  - unfold wf_config. repeat constructor; by eexists.
  - discriminate.
  - repeat constructor; by eexists.
  - repeat constructor; by eexists.
Defined.

(** X29.  [Config.Merge] of a named section whose name is the identity
    key of no section of the configuration appends the section and
    changes nothing else; a second [Merge] of the same section finds it,
    returns it and appends nothing. *)
Theorem Merge_named_twice (h : Heap) (c : Config) (s : addr) (sec : SectionT) :
  wf_config h c ->
  sections h !! s = Some sec -> secName sec <> "" ->
  wf_options h (secOptions sec) ->
  find (has_key h c (secName sec)) (cfgSections c) = None ->
  Config_Merge h c s = Ok (h, Config_Add c s, s)
  /\ exists h', Config_Merge h (Config_Add c s) s = Ok (h', Config_Add c s, s).
Proof.
  intros Hwf Hs Hname Hopts Hnone. split.
  - pose proof (Config_Merge_named h c s sec Hwf Hs Hname) as Hm.
    rewrite Hnone in Hm. by destruct Hm as [Hm _].
  - assert (wf_config h (Config_Add c s)) as Hwf'
      by (apply wf_config_Add; [done | by eexists]).
    pose proof (Config_Merge_named h (Config_Add c s) s sec Hwf' Hs Hname) as Hm.
    assert (find (has_key h (Config_Add c s) (secName sec))
              (cfgSections (Config_Add c s)) = Some s) as Hfind.
    { unfold Config_Add at 2. cbn [cfgSections].
      rewrite find_app_None by (by rewrite find_has_key_Add).
      cbn [find]. unfold has_key, Config_sectionName.
      rewrite (getSection_Some _ _ _ Hs). cbn [rbind].
      rewrite (bool_decide_eq_true_2 (secName sec <> "")) by done.
      by rewrite bool_decide_eq_true_2. }
    rewrite Hfind in Hm. rewrite Hm.
    destruct (Merge_options_spec h s sec (secOptions sec) Hs Hopts Hopts)
      as (h' & secf' & -> & _). by exists h'.
Qed.

Lemma Merge_named_twice_witness :
  Config_Merge overlay_heap overlay_config 4
  = Ok (overlay_heap, Config_Add overlay_config 4, 4%nat)
  /\ exists h', Config_Merge overlay_heap (Config_Add overlay_config 4) 4
                = Ok (h', Config_Add overlay_config 4, 4%nat).
Proof.
  refine (Merge_named_twice overlay_heap overlay_config 4
            (mkSection "wan" "interface" [11%nat]) _ eq_refl _ _ eq_refl).
  - unfold wf_config. repeat constructor; by eexists.
  - discriminate.
  - repeat constructor; by eexists.
Defined.

(** X30.  Over a tree whose pointers are allocated, [WriteTo] panics on
    the index 0 of an empty slice when some section holds an option of
    type [TypeOption] without a value. *)
Theorem WriteTo_without_value (h : Heap) (c : Config)
  (tree : list (SectionT * list OptionT)) :
  resolve h c = Some tree ->
  literal_types h c ->
  Exists (fun b => Exists option_without_value b.2) tree ->
  Config_WriteTo h c = Panic "index out of range [0] with length 0".
Proof.
  intros Htree _ Hex. unfold Config_WriteTo.
  by rewrite (write_sections_without_value h "" _ tree Htree Hex).
Qed.

Lemma WriteTo_without_value_witness :
  Config_WriteTo (setOption ex_heap 14 (mkOption "unnamed" [] TypeOption)) ex_config
  = Panic "index out of range [0] with length 0".
Proof.
  refine (WriteTo_without_value
            (setOption ex_heap 14 (mkOption "unnamed" [] TypeOption)) ex_config
            _ eq_refl _ _).
  - unfold literal_types. repeat constructor; intros sec Hsec;
      vm_compute in Hsec; by injection Hsec as <-.
  - apply Exists_cons_tl, Exists_cons_hd. cbn [snd].
    apply Exists_cons_tl, Exists_cons_hd. by split.
Defined.
